(** * Dispersion-and-aggregation engine of the SUMO intersection scripts

    The repository holds several variants of one screening computation
    (disper.py, disper_v3.py, better_disper.py, v2_better_disper.py,
    v3_better_disper.py, v5_webapp.py, v7_webapp.py, tanga.py).  Every
    variant is a script: its main loop is embedded here as functions named
    after the variables the loop assigns.

    Two embeddings are given.

    - [Exact]: Python floats are read as real numbers, so that the algebraic
      laws of the formulas (equalities, inequalities, monotonicity) can be
      stated; rounding is not modelled there.
    - [Binary64]: Python floats are IEEE 754 binary64 values (Rocq's
      primitive floats), with NaN, signed zeros and rounding, for the parts
      whose behaviour depends on them: the loops over the emission file,
      the sums of the aggregations and the two position formulas. *)

From Stdlib Require Import Reals Lra Lia ZArith List.
From Stdlib Require Floats QArith.
From stdpp Require Import base decidable option list strings gmap.

(** ** Constant tables shared by the scripts *)

Definition POLLUTANTS : list string := ["CO"; "CO2"; "NOx"; "PMx"].
Definition segments_per_lane : nat := 10.

(** * Exact arithmetic *)

Module Exact.

#[local] Open Scope R_scope.

#[global] Instance Rle_decision (x y : R) : Decision (x <= y) := Rle_dec x y.
#[global] Instance Rlt_decision (x y : R) : Decision (x < y) := Rlt_dec x y.
#[global] Instance R_eq_decision : EqDecision R := Req_dec_T.

(** numpy arrays of shape (2,) *)
Definition vec : Type := R * R.

Definition vadd (a b : vec) : vec := (a.1 + b.1, a.2 + b.2).
Definition vsub (a b : vec) : vec := (a.1 - b.1, a.2 - b.2).
Definition vscale (v : vec) (s : R) : vec := (v.1 * s, v.2 * s).
Definition sscale (s : R) (v : vec) : vec := (s * v.1, s * v.2).

(** np.linalg.norm of a 1-D array *)
Definition norm (v : vec) : R := sqrt (v.1 * v.1 + v.2 * v.2).

(** get_segment_position, the same text in disper.py, disper_v3.py,
    better_disper.py, v2_better_disper.py, v5_webapp.py and v7_webapp.py *)
Definition get_segment_position
    (start direction : vec) (length : R) (seg_index num_segments : nat) : vec :=
  let segment_length := length / INR num_segments in
  let offset := (INR seg_index + 0.5) * segment_length in
  vadd start (vscale direction offset).

(** start_point = -0.5 * L * direction *)
Definition start_point (L : R) (direction : vec) : vec :=
  sscale (-0.5 * L) direction.

(** np.arctan2(y, x), in radians, in (-pi, pi]; arctan2(0, 0) = 0 *)
Definition arctan2 (y x : R) : R :=
  if decide (0 < x) then atan (y / x)
  else if decide (x < 0) then
    (if decide (0 <= y) then atan (y / x) + PI else atan (y / x) - PI)
  else if decide (0 < y) then PI / 2
  else if decide (y < 0) then - (PI / 2)
  else 0.

(** np.degrees *)
Definition degrees (x : R) : R := x * (180 / PI).

(** Python's x % m on floats, for a positive modulus: x - m * floor(x / m) *)
Definition fmod (x m : R) : R := x - m * IZR (Int_part (x / m)).

(** np.linspace(a, b, num): num evenly spaced samples, the last one set to
    [b] when num > 1 *)
Definition linspace (a b : R) (num : nat) : list R :=
  match num with
  | O => []
  | S div =>
      let step := (b - a) / INR div in
      match div with
      | O => [a]
      | S _ => map (fun i => a + INR i * step) (seq 0 div) ++ [b]
      end
  end.


(** ** The aggregator in exact arithmetic: df.groupby(keys)[column].sum()
    with the sums taken over the reals

    The table of running totals holds one entry per distinct key; a row
    whose key is missing (NaN in pandas) is dropped.  pandas sorts the
    resulting rows by key, so the table is meant up to the order of its
    entries.  The sums pandas computes are binary64 sums; they are
    modelled in the binary64 part below. *)
Section Aggregator.
Context {Row K : Type} `{EqDecision K}.
Variable key : Row -> option K.
Variable value : Row -> R.

Fixpoint accumulate (k : K) (v : R) (acc : list (K * R)) : list (K * R) :=
  match acc with
  | [] => [(k, v)]
  | (k', s) :: rest =>
      if decide (k = k') then (k', s + v) :: rest
      else (k', s) :: accumulate k v rest
  end.

Definition groupby_sum (rows : list Row) : list (K * R) :=
  fold_left
    (fun acc r =>
       match key r with
       | Some k => accumulate k (value r) acc
       | None => acc
       end)
    rows [].

(** the aggregated total of one key, if the key has a group *)
Fixpoint total (k : K) (table : list (K * R)) : option R :=
  match table with
  | [] => None
  | (k', s) :: rest => if decide (k = k') then Some s else total k rest
  end.

(** the running total of the key [k] alone as the rows go by; used to
    state what [groupby_sum] computes for one key *)
Definition step_total (k : K) (o : option R) (r : Row) : option R :=
  if decide (key r = Some k)
  then Some (match o with Some s => s + value r | None => value r end)
  else o.
End Aggregator.

(** Series.str.extract with a pattern that is an alternation of literals:
    the leftmost match, the alternatives tried in order *)
Fixpoint str_extract (alternatives : list string) (s : string) : option string :=
  match List.find (fun a => String.prefix a s) alternatives with
  | Some a => Some a
  | None =>
      match s with
      | EmptyString => None
      | String _ s' => str_extract alternatives s'
      end
  end.

(** the sum of a column *)
Definition Rsum (l : list R) : R := fold_right Rplus 0 l.

(** [a] occurs in [s] as a substring *)
Definition occurs_in (a s : string) : Prop :=
  exists pre post : string, s = pre +:+ a +:+ post.

(** ** disper.py *)
Module Disper.

Definition G_KM_H_TO_KG_M_S : R := 2.7778e-7.

Section Parameters.
Variables U H_wc : R.

(** E = normed * G_KM_H_TO_KG_M_S *)
Definition E (normed : R) : R := normed * G_KM_H_TO_KG_M_S.

(** r = max(r, 0.1) *)
Definition r_used (r : R) : R := Rmax r 0.1.

(** Q = E * segment_length, with segment_length = L / segments_per_lane *)
Definition Q (normed L : R) (n : nat) : R :=
  let segment_length := L / INR n in
  E normed * segment_length.

(** C_i = 10 * Q / (U * H_wc * r) *)
Definition C_i (Q r : R) : R := 10 * Q / (U * H_wc * r).

(** the concentration of one segment at geometric distance [d] *)
Definition concentration (Q d : R) : R := C_i Q (r_used d).
End Parameters.

End Disper.

(** ** v2_better_disper.py; the loop body is the same in
    v3_better_disper.py, v5_webapp.py and v7_webapp.py *)
Module V2.

Section Parameters.
Variables wind_speed mixing_height : R.

(** emission_per_m = normed_val * 1e-6 / 3600 *)
Definition emission_per_m (normed_val : R) : R := normed_val * 1e-6 / 3600.

(** Q = emission_per_m * (L / segments_per_lane) *)
Definition Q (normed_val L : R) (n : nat) : R :=
  emission_per_m normed_val * (L / INR n).

(** if r == 0: r = 0.1 *)
Definition r_used (r : R) : R := if decide (r = 0) then 0.1 else r.

(** C_i = 10 * Q / (wind_speed * mixing_height * 0.1 * r) *)
Definition C_i (Q r : R) : R :=
  10 * Q / (wind_speed * mixing_height * 0.1 * r).

Definition C_i_ug (Q r : R) : R := C_i Q r * 1e9.

Definition concentration (Q d : R) : R := C_i Q (r_used d).
End Parameters.

Definition LANE_DIRECTIONS : gmap string vec :=
  {[ "North" := (0, -1); "South" := (0, 1);
     "East" := (1, 0); "West" := (-1, 0) ]}.

Definition LANE_LENGTHS : gmap string R :=
  {[ "North" := 74.5; "South" := 24.46; "East" := 47.32; "West" := 71.45 ]}.

Definition wind_dir_deg : R := 90.
Definition half_angle_deg : R := 45.

(** the bearing of the receptor seen from the source, in [0, 360) *)
Definition bearing (src receptor : vec) : R :=
  let delta := vsub receptor src in
  fmod (degrees (arctan2 delta.2 delta.1) + 360) 360.

Definition downwind_center (wind_deg : R) : R := fmod (wind_deg + 180) 360.

(** is_downwind, the same text in v2_better_disper.py,
    v3_better_disper.py, v5_webapp.py and v7_webapp.py *)
Definition is_downwind (src receptor : vec) (wind_deg half_angle : R) : bool :=
  let angle := bearing src receptor in
  let downwind_center := downwind_center wind_deg in
  let diff := Rmin (Rabs (angle - downwind_center))
                   (360 - Rabs (angle - downwind_center)) in
  bool_decide (diff <= half_angle).

(** the positions the main loop visits: i in range(segments_per_lane) *)
Definition segment_positions (start direction : vec) (L : R) (n : nat) : list vec :=
  map (fun i => get_segment_position start direction L i n) (seq 0 n).

(** one entry of [rows] *)
Record row : Type := {
  lane : string;
  pollutant : string;
  segment_index : nat;
  x : R;
  y : R;
  receptor_id : nat;
  distance_to_receptor_m : R;
  Q_kg_per_s : R;
  C_i_ug_per_m3 : R
}.

(** The rows one lane element appends.  The scripts fix the wind, the
    sector and the receptors at module level; they are parameters here, and
    [normed] gives float(lane.get(f"{pollutant}_normed", 0)).  The lines
    v2_better_disper.py prints are left out. *)
Section Loop.
Variables wind_speed mixing_height wind_deg half_angle : R.
Variable receptors : list vec.

(** the body of [for ridx, receptor in enumerate(receptors)] *)
Definition receptor_rows (lane_name pollutant : string) (i : nat) (pos : vec)
    (Q : R) : list row :=
  flat_map (fun '(ridx, receptor) =>
    let r := norm (vsub pos receptor) in
    let r := if decide (r = 0) then 0.1 else r in
    if is_downwind pos receptor wind_deg half_angle then
      let C_i := 10 * Q / (wind_speed * mixing_height * 0.1 * r) in
      let C_i_ug := C_i * 1e9 in
      [ {| lane := lane_name; pollutant := pollutant; segment_index := i;
           x := pos.1; y := pos.2; receptor_id := ridx;
           distance_to_receptor_m := r; Q_kg_per_s := Q;
           C_i_ug_per_m3 := C_i_ug |} ]
    else [])
    (imap pair receptors).

(** the body of [for lane in edge.findall("lane")] *)
Definition lane_rows (lane_name : string) (direction : vec) (L : R)
    (normed : string -> R) : list row :=
  let start_point := start_point L direction in
  flat_map (fun pollutant =>
    let emission_per_m := normed pollutant * 1e-6 / 3600 in
    flat_map (fun i =>
      let pos :=
        get_segment_position start_point direction L i segments_per_lane in
      let Q := emission_per_m * (L / INR segments_per_lane) in
      receptor_rows lane_name pollutant i pos Q)
      (seq 0 segments_per_lane))
    POLLUTANTS.
End Loop.

End V2.

(** ** v3_better_disper.py *)
Module V3.

Definition get_segment_positions
    (start direction : vec) (length : R) (num_segments : nat) : list vec :=
  let relative_positions :=
    linspace (- length / 2 + length / (2 * INR num_segments))
             (length / 2 - length / (2 * INR num_segments))
             num_segments in
  map (fun d => vadd start (vscale direction d)) relative_positions.

(** start_point = np.array([0.0, 0.0]) *)
Definition start_point : vec := (0, 0).

End V3.

(** ** better_disper.py *)
Module BetterDisper.

Section Parameters.
Variables U H_wc : R.

Definition emission_per_m (normed_val : R) : R := normed_val * 1e-6 / 3600.

(** if dist == 0: dist = 0.1 *)
Definition dist_used (dist : R) : R := if decide (dist = 0) then 0.1 else dist.

(** Q_i = emission_per_m * (length / segments_per_lane) *)
Definition Q_i (normed_val length : R) (n : nat) : R :=
  emission_per_m normed_val * (length / INR n).

(** C_i = 10 * Q_i / (U * H_wc * (0.1*dist)) *)
Definition C_i (Q_i dist : R) : R := 10 * Q_i / (U * H_wc * (0.1 * dist)).

Definition concentration (Q_i d : R) : R := C_i Q_i (dist_used d).
End Parameters.

End BetterDisper.

(** ** disper_v3.py *)
Module DisperV3.

Section Parameters.
Variables U H_wc : R.

Definition emission_per_m (normed_val : R) : R := normed_val * 1e-6 / 3600.
Definition r_used (r : R) : R := if decide (r = 0) then 0.1 else r.
Definition Q (normed_val L : R) (n : nat) : R :=
  emission_per_m normed_val * (L / INR n).
(** C_i = 10 * Q / (U * H_wc * r) *)
Definition C_i (Q r : R) : R := 10 * Q / (U * H_wc * r).
End Parameters.

End DisperV3.

(** ** v5_webapp.py *)
Module V5.

(** hour = int(start_time_sec // 3600) *)
Definition hour_of (start_time_sec : R) : Z := Int_part (start_time_sec / 3600).

End V5.

(** ** v7_webapp.py *)
Module V7.

Record row : Type := {
  hour : Z;
  pollutant : string;
  x : R;
  y : R;
  C_i_ug_per_m3 : R
}.

Definition total_df : list row -> list (Z * string * R * R * R) :=
  groupby_sum (fun r => Some (hour r, pollutant r, x r, y r)) C_i_ug_per_m3.

(** hour = int(start_time_sec // 3600) *)
Definition hour_of (start_time_sec : R) : Z := Int_part (start_time_sec / 3600).

(** the body of [for gp in grid_points] *)
Definition grid_rows (wind_speed mixing_height wind_deg half_angle : R)
    (grid_points : list vec) (hour : Z) (pollutant : string) (pos : vec)
    (Q : R) : list row :=
  flat_map (fun gp =>
    if V2.is_downwind pos gp wind_deg half_angle then
      let r := norm (vsub pos gp) in
      let r := if decide (r = 0) then 0.1 else r in
      let C_i := 10 * Q / (wind_speed * mixing_height * 0.1 * r) in
      let C_i_ug := C_i * 1e9 in
      [ {| hour := hour; pollutant := pollutant; x := gp.1; y := gp.2;
           C_i_ug_per_m3 := C_i_ug |} ]
    else [])
    grid_points.

(** the body of [for lane in edge.findall("lane")] *)
Definition lane_rows (wind_speed mixing_height wind_deg half_angle : R)
    (grid_points : list vec) (hour : Z) (direction : vec) (L : R)
    (normed : string -> R) : list row :=
  let start_point := start_point L direction in
  flat_map (fun pollutant =>
    let emission_per_m := normed pollutant * 1e-6 / 3600 in
    flat_map (fun i =>
      let pos :=
        get_segment_position start_point direction L i segments_per_lane in
      let Q := emission_per_m * (L / INR segments_per_lane) in
      grid_rows wind_speed mixing_height wind_deg half_angle grid_points
        hour pollutant pos Q)
      (seq 0 segments_per_lane))
    POLLUTANTS.

(** lane_points of plot_intersection_outline: i in
    range(segments_per_lane + 1) *)
Definition lane_points (direction : vec) (L : R) (segments_per_lane : nat)
    : list vec :=
  let start_point := start_point L direction in
  map (fun i => get_segment_position start_point direction L i segments_per_lane)
      (seq 0 (segments_per_lane + 1)).

End V7.

(** ** tanga.py, the /compute endpoint *)
Module Tanga.

Section Parameters.
Variables U_wc H_wc : R.

(** the body of the loop over total_emissions; [x] is the form field
    'distance'; W_wc = 0.1 * x *)
Definition W_wc (x : R) : R := 0.1 * x.

(** C_wc = (10.0 * Q) / (U_wc * H_wc * W_wc), before the unit scaling *)
Definition C_wc_kg (Q x : R) : R := (10.0 * Q) / (U_wc * H_wc * W_wc x).

Definition C_wc (Q x : R) : R :=
  if decide (0 < U_wc * H_wc * W_wc x) then C_wc_kg Q x * 1e6 else 0.0.
End Parameters.

(** a lane element as the endpoint reads it: float(lane.get("length", 0))
    and float(lane.get(f"{pollutant}_normed", 0)) *)
Record lane : Type := { length : R; normed : string -> R }.

Definition N_seg : nat := 10.

(** Q_seg = emission_per_m * delta_x *)
Definition Q_seg (E_normed L : R) : R :=
  let emission_per_m := E_normed * 1e-6 / 3600 in
  let delta_x := L / INR N_seg in
  emission_per_m * delta_x.

(** the loop over the lane elements; total_emissions[pollutant] += ... has
    every pollutant as a key from the start *)
Definition total_emissions (lanes : list lane) : gmap string R :=
  fold_left
    (fun total l =>
       if decide (length l <= 0) then total
       else
         fold_left
           (fun total pollutant =>
              alter (fun q => q + Q_seg (normed l pollutant) (length l) * INR N_seg)
                    pollutant total)
           POLLUTANTS total)
    lanes
    (list_to_map (map (fun pollutant => (pollutant, 0.0)) POLLUTANTS)).

(** one entry of the JSON answer *)
Record result : Type := { Q_kg_per_s : R; C_wc_ug_per_m3 : R }.

(** the answer when a file is given; [x] is the form field 'distance' *)
Definition compute_screening (U_wc H_wc x : R) (lanes : list lane)
    : gmap string result :=
  (fun Q => {| Q_kg_per_s := Q; C_wc_ug_per_m3 := C_wc U_wc H_wc Q x |})
    <$> total_emissions lanes.

End Tanga.

End Exact.

(** * Binary64 arithmetic

    The scripts as they run: every Python float and every numpy float64 is
    a primitive float.  An integer that meets a float (seg_index + 0.5,
    length / num_segments, an integer array in a float expression) is
    converted first, and the conversion is exact for the values at hand. *)

Module Binary64.

Import Floats.
#[local] Set Warnings "-inexact-float".
#[local] Open Scope float_scope.

Definition vec : Type := float * float.

Definition vadd (a b : vec) : vec := (a.1 + b.1, a.2 + b.2).
Definition vsub (a b : vec) : vec := (a.1 - b.1, a.2 - b.2).
Definition vscale (v : vec) (s : float) : vec := (v.1 * s, v.2 * s).
Definition sscale (s : float) (v : vec) : vec := (s * v.1, s * v.2).
Definition vdiv (v : vec) (s : float) : vec := (v.1 / s, v.2 / s).

(** np.dot of two arrays of shape (2,) *)
Definition dot (a b : vec) : float := a.1 * b.1 + a.2 * b.2.

(** np.linalg.norm of a 1-D array: sqrt(dot(x, x)) *)
Definition norm (v : vec) : float := sqrt (dot v v).

(** the float of a Python int *)
Definition of_nat (n : nat) : float := of_uint63 (Uint63.of_Z (Z.of_nat n)).

Definition get_segment_position
    (start direction : vec) (length : float) (seg_index num_segments : nat) : vec :=
  let segment_length := length / of_nat num_segments in
  let offset := (of_nat seg_index + 0.5) * segment_length in
  vadd start (vscale direction offset).

(** start_point = -0.5 * L * direction *)
Definition start_point (L : float) (direction : vec) : vec :=
  sscale (-0.5 * L) direction.

(** np.clip on a scalar: NaN is passed through *)
Definition clip (x lo hi : float) : float :=
  if is_nan x then x
  else
    let m := if x <? lo then lo else x in
    if hi <? m then hi else m.

(** np.degrees: x * (180 / pi) *)
Definition degrees (x : float) : float := x * 57.29577951308232.

(** the exact value of a finite float *)
Definition to_Q (x : float) : option QArith_base.Q :=
  match Prim2SF x with
  | S754_zero _ => Some (QArith_base.Qmake 0 1)
  | S754_finite s m e =>
      Some (QArith_base.Qmult
              (QArith_base.Qmake (if s then Zneg m else Zpos m) 1)
              (QArith_base.Qpower (QArith_base.Qmake 2 1) e))
  | _ => None
  end.

(** [x] lies within the relative tolerance [tol] of [target] *)
Definition within (tol target : QArith_base.Q) (x : float) : bool :=
  match to_Q x with
  | Some q =>
      QArith_base.Qle_bool
        (QArith_base.Qminus target (QArith_base.Qmult tol target)) q
      && QArith_base.Qle_bool q
           (QArith_base.Qplus target (QArith_base.Qmult tol target))
  | None => false
  end.



(** np.linspace(start, stop, num), endpoint=True: the samples are
    arange(0, num) * step + start with step = (stop - start) / (num - 1)
    (arange(0, num) / (num - 1) * (stop - start) + start when the step
    compares equal to 0), and the last sample is set to [stop] when
    num > 1 *)
Definition linspace (start stop : float) (num : nat) : list float :=
  let div := (num - 1)%nat in
  let delta := stop - start in
  let y := map of_nat (seq 0 num) in
  let y :=
    if (0 <? div)%nat then
      let step := delta / of_nat div in
      if step =? 0 then map (fun i => i / of_nat div * delta + start) y
      else map (fun i => i * step + start) y
    else map (fun i => i * delta + start) y in
  if (1 <? num)%nat then take (num - 1) y ++ [stop] else y.

(** ** The parsed emission file: interval, edge, lane elements *)

(** the text of an attribute, as float(...) sees it: the float it parses
    to, or a text that makes float raise ValueError *)
Inductive text : Type :=
  | Numeric (x : float)
  | Unparseable.

Record lane_el : Type := { attrib : gmap string text }.
Record edge_el : Type := { id : option string; lanes : list lane_el }.
Record interval_el : Type := { edges : list edge_el }.
Definition root_el : Type := list interval_el.

(** ** What a script does: the rows it appends to its result list, what it
    prints, and the exception that stopped it, if any.  The scripts never
    read their result list or their output back inside the loops. *)

Inductive exn : Type := ValueError | KeyError.

Record trace (Row Event : Type) : Type := {
  results : list Row;
  stdout : list Event;
  raised : option exn
}.
Arguments results {Row Event} _.
Arguments stdout {Row Event} _.
Arguments raised {Row Event} _.

Section Trace.
Context {Row Event : Type}.

Definition pass : trace Row Event :=
  {| results := []; stdout := []; raised := None |}.
Definition append (r : Row) : trace Row Event :=
  {| results := [r]; stdout := []; raised := None |}.
Definition print (e : Event) : trace Row Event :=
  {| results := []; stdout := [e]; raised := None |}.
Definition raise (x : exn) : trace Row Event :=
  {| results := []; stdout := []; raised := Some x |}.

(** statement1; statement2 *)
Definition andthen (t1 t2 : trace Row Event) : trace Row Event :=
  match raised t1 with
  | Some _ => t1
  | None =>
      {| results := results t1 ++ results t2;
         stdout := stdout t1 ++ stdout t2;
         raised := raised t2 |}
  end.

(** for a in l: body *)
Fixpoint for_each {A : Type} (l : list A) (body : A -> trace Row Event)
    : trace Row Event :=
  match l with
  | [] => pass
  | a :: l' => andthen (body a) (for_each l' body)
  end.
End Trace.

(** the edge elements of the file, in document order *)
Definition all_edges (root : root_el) : list edge_el := flat_map edges root.

(** the file without the edge elements that [skipped] selects *)
Definition without_edges (skipped : edge_el -> bool) (root : root_el) : root_el :=
  map (fun interval =>
         {| edges := List.filter (fun e => negb (skipped e)) (edges interval) |})
      root.

(** float(lane.get(name, 0)) *)
Definition get_float_default (lane : lane_el) (name : string) : option float :=
  match attrib lane !! name with
  | None => Some 0
  | Some (Numeric x) => Some x
  | Some Unparseable => None
  end.

(** ** df.groupby(keys)[column].sum() on binary64 columns

    pandas adds the values of a group one after the other, in row order,
    and skips the values that are NaN.  How a value is added is the
    [accumulator]: plainly, or with the Kahan compensation of pandas'
    group_sum; what is proved of every accumulator holds of either.  A
    group is a key that occurs in the rows, and a row whose key is missing
    (NaN in pandas) is dropped.  pandas sorts the result by key, so the
    table is meant up to the order of its entries. *)
Record accumulator : Type := {
  state : Type;
  init : state;
  add : state -> float -> state;
  finish : state -> float
}.

(** sumx += val *)
Definition plain_sum : accumulator :=
  {| state := float; init := 0; add := fun sumx val => sumx + val;
     finish := fun sumx => sumx |}.

(** y = val - compensation; t = sumx + y;
    compensation = t - sumx - y, set to 0 if it is NaN; sumx = t *)
Definition kahan_sum : accumulator :=
  {| state := float * float; init := (0, 0);
     add := fun s val =>
       let y := val - s.2 in
       let t := s.1 + y in
       let compensation := t - s.1 - y in
       (t, if is_nan compensation then 0 else compensation);
     finish := fst |}.

Section Aggregator.
Context {Row K : Type} `{EqDecision K}.
Variable acc : accumulator.
Variable key : Row -> option K.
Variable value : Row -> float.

(** a NaN is skipped *)
Definition add_value (s : state acc) (v : float) : state acc :=
  if is_nan v then s else add acc s v.

Fixpoint accumulate (k : K) (v : float) (table : list (K * state acc))
    : list (K * state acc) :=
  match table with
  | [] => [(k, add_value (init acc) v)]
  | (k', s) :: rest =>
      if decide (k = k') then (k', add_value s v) :: rest
      else (k', s) :: accumulate k v rest
  end.

(** the running sum of one key, if the key has a group *)
Fixpoint running_of (k : K) (table : list (K * state acc))
    : option (state acc) :=
  match table with
  | [] => None
  | (k', s) :: rest => if decide (k = k') then Some s else running_of k rest
  end.

(** the running sums after the rows *)
Definition running (rows : list Row) : list (K * state acc) :=
  fold_left
    (fun table r =>
       match key r with
       | Some k => accumulate k (value r) table
       | None => table
       end)
    rows [].

Definition groupby_sum (rows : list Row) : list (K * float) :=
  map (fun e => (e.1, finish acc e.2)) (running rows).

(** pd.DataFrame(rows).groupby(keys)[column].sum(): a DataFrame made from
    an empty list has no columns, and naming a column of it raises
    KeyError *)
Definition dataframe_groupby_sum (rows : list Row) : exn + list (K * float) :=
  match rows with
  | [] => inl KeyError
  | _ => inr (groupby_sum rows)
  end.

(** the aggregated total of one key, if the key has a group *)
Fixpoint total (k : K) (table : list (K * float)) : option float :=
  match table with
  | [] => None
  | (k', s) :: rest => if decide (k = k') then Some s else total k rest
  end.

(** the values of the rows of the group [k], in row order *)
Definition group_values (k : K) (rows : list Row) : list float :=
  map value (filter (fun r => key r = Some k) rows).

(** the values of a group added up in row order *)
Definition group_sum (k : K) (rows : list Row) : float :=
  finish acc (fold_left add_value (group_values k rows) (init acc)).
End Aggregator.

(** ** better_disper.py *)
Module BetterDisper.

Definition U : float := 1.0.
Definition H_wc : float := 50.0.

Definition LANE_TO_SIDE : gmap string string :=
  {[ "North In" := "North"; "North Out" := "North";
     "South In" := "South"; "South Out" := "South";
     "East In" := "East"; "East Out" := "East";
     "West In" := "West"; "West Out" := "West" ]}.

Record lane_info : Type := { dir : vec; length : float }.

Definition LANE_INFO : gmap string lane_info :=
  {[ "North In" := {| dir := (0, -1); length := 74.5 |};
     "North Out" := {| dir := (0, 1); length := 74.5 |};
     "South In" := {| dir := (0, 1); length := 24.46 |};
     "South Out" := {| dir := (0, -1); length := 24.46 |};
     "East In" := {| dir := (-1, 0); length := 47.32 |};
     "East Out" := {| dir := (1, 0); length := 47.32 |};
     "West In" := {| dir := (1, 0); length := 71.45 |};
     "West Out" := {| dir := (-1, 0); length := 71.45 |} ]}.

Definition EDGE_TO_LANE : gmap string string :=
  {[ "-1232571604" := "North Out"; "-29251749#0" := "East In";
     "-4922743#4" := "West Out"; "29251749#0" := "East Out";
     "1232571604" := "North In"; "617654357#1" := "South Out";
     "-617654357#1" := "South In"; "4922743#4" := "West In";
     "237386421" := "North In" ]}.

(** one entry of [results] *)
Record row : Type := {
  side : string;
  pollutant : string;
  segment_index : nat;
  x : float;
  y : float;
  Q_kg_per_s : float;
  C_i_kg_per_m3 : float;
  C_i_ug_per_m3 : float;
  distance_to_receptor_m : float;
  angle_deg : float
}.

(** the lines the script prints *)
Inductive event : Type :=
  | Warning_lane_name_not_found (edge_id : option string)
  | Angle_exceeds_tolerance (angle : float) (side : string) (segment : nat)
  | No_results_to_save
  | Success_saved.

(** EDGE_TO_LANE.get(edge.get("id")) *)
Definition lane_name_of (e : edge_el) : option string :=
  id e ≫= fun edge_id => EDGE_TO_LANE !! edge_id.

(** the test [not lane_name]: None and the empty string are falsy *)
Definition falsy (lane_name : option string) : bool :=
  match lane_name with
  | None => true
  | Some name => bool_decide (name = "")
  end.

(** the edge elements whose id is not a key of EDGE_TO_LANE *)
Definition unknown (e : edge_el) : bool :=
  bool_decide (lane_name_of e = None).

(** the edge ids of the warnings among the printed lines *)
Definition warned_ids (out : list event) : list (option string) :=
  omap (fun ev =>
          match ev with
          | Warning_lane_name_not_found edge_id => Some edge_id
          | _ => None
          end) out.

(** the side and segment index of the "angle exceeds tolerance" lines
    among the printed lines *)
Definition filtered_segments (out : list event) : list (string * nat) :=
  omap (fun ev =>
          match ev with
          | Angle_exceeds_tolerance _ side i => Some (side, i)
          | _ => None
          end) out.

Definition emission_per_m (normed_val : float) : float :=
  normed_val * 1e-6 / 3600.

(** The script fixes the receptor, the wind vector (from math.cos and
    math.sin of the wind direction) and the angle tolerance at module
    level; they are parameters here.  np.arccos returns NaN on NaN; its
    value on every other argument is the parameter [acos_finite]. *)
Section Environment.
Variables receptor wind_vec : vec.
Variable angle_tolerance : float.
Variable acos_finite : float -> float.

Definition arccos (x : float) : float :=
  if is_nan x then nan else acos_finite x.

Definition angle_between (v1 v2 : vec) : float :=
  let unit_v1 := vdiv v1 (norm v1) in
  let unit_v2 := vdiv v2 (norm v2) in
  let dot := clip (dot unit_v1 unit_v2) (-1.0) 1.0 in
  degrees (arccos dot).

(** the body of [for i in range(segments_per_lane)] *)
Definition segment (side pollutant : string) (length : float)
    (direction start_point : vec) (emission_per_m : float) (i : nat)
    : trace row event :=
  let pos :=
    get_segment_position start_point direction length i segments_per_lane in
  let vec_to_receptor := vsub receptor pos in
  let dist := norm vec_to_receptor in
  let dist := if dist =? 0 then 0.1 else dist in
  let angle := angle_between vec_to_receptor wind_vec in
  if angle_tolerance <? angle
  then print (Angle_exceeds_tolerance angle side i)
  else
    let Q_i := emission_per_m * (length / of_nat segments_per_lane) in
    let C_i := 10 * Q_i / (U * H_wc * (0.1 * dist)) in
    append {| side := side; pollutant := pollutant; segment_index := i;
              x := pos.1; y := pos.2;
              Q_kg_per_s := Q_i; C_i_kg_per_m3 := C_i;
              C_i_ug_per_m3 := C_i * 1e9;
              distance_to_receptor_m := dist; angle_deg := angle |}.

(** the body of [for lane in edge.findall("lane")] *)
Definition lane (side : string) (length : float)
    (direction start_point : vec) (l : lane_el) : trace row event :=
  for_each POLLUTANTS (fun pollutant =>
    match get_float_default l (pollutant +:+ "_normed") with
    | None => raise ValueError
    | Some normed_val =>
        for_each (seq 0 segments_per_lane)
          (segment side pollutant length direction start_point
                   (emission_per_m normed_val))
    end).

(** the body of [for edge in interval.findall("edge")] *)
Definition edge (e : edge_el) : trace row event :=
  let lane_name := lane_name_of e in
  if falsy lane_name
  then print (Warning_lane_name_not_found (id e))
  else
    match lane_name ≫= (LANE_TO_SIDE !!.),
          lane_name ≫= (LANE_INFO !!.) with
    | Some side, Some info =>
        let start_point := start_point (length info) (dir info) in
        for_each (lanes e) (lane side (length info) (dir info) start_point)
    | _, _ => raise KeyError
    end.

Definition main_loop (root : root_el) : trace row event :=
  for_each root (fun interval => for_each (edges interval) edge).

(** the whole script *)
Definition run (root : root_el) : trace row event :=
  let t := main_loop root in
  andthen t
    (print (if bool_decide (results t = []) then No_results_to_save
            else Success_saved)).
End Environment.

End BetterDisper.

(** ** disper.py *)
Module Disper.

Definition POLLUTANTS : list string := ["NOx"; "CO"; "CO2"; "PMx"].
Definition G_KM_H_TO_KG_M_S : float := 2.7778e-7.
Definition U : float := 1.0.
Definition H_wc : float := 50.0.
Definition receptor : vec := (0, 0).

Definition lane_directions : gmap string vec :=
  {[ "North In" := (0, -1); "North Out" := (0, 1);
     "South In" := (0, 1); "South Out" := (0, -1);
     "East In" := (-1, 0); "East Out" := (1, 0);
     "West In" := (1, 0); "West Out" := (-1, 0) ]}.

Definition edge_to_lane : gmap string string :=
  {[ "-1232571604" := "North Out"; "-29251749#0" := "South In";
     "-4922743#4" := "West Out"; "29251749#0" := "South Out";
     "617654357#1" := "East Out"; "-617654357#1" := "East In";
     "4922743#4" := "West In"; "237386421" := "North In" ]}.

Definition lane_lengths : gmap string float :=
  {[ "North In" := 74.5; "North Out" := 74.5;
     "South In" := 24.46; "South Out" := 24.46;
     "East In" := 47.32; "East Out" := 47.32;
     "West In" := 71.45; "West Out" := 71.45 ]}.

Record row : Type := {
  lane : string;
  pollutant : string;
  total_concentration : float
}.

(** print(df), where df is grouped from [results] by pandas *)
Inductive event : Type := Print_df (results : list row).

Definition lane_name_of (e : edge_el) : option string :=
  id e ≫= fun edge_id => edge_to_lane !! edge_id.

Definition unknown (e : edge_el) : bool :=
  bool_decide (lane_name_of e = None).

(** max(r, 0.1) *)
Definition max_r (r : float) : float := if r <? 0.1 then 0.1 else r.

(** the body of [for i in range(segments_per_lane)], up to C_i *)
Definition C_i (L : float) (direction start_point : vec) (E : float)
    (i : nat) : float :=
  let pos := get_segment_position start_point direction L i segments_per_lane in
  let r := norm (vsub pos receptor) in
  let r := max_r r in
  let segment_length := L / of_nat segments_per_lane in
  let Q := E * segment_length in
  10 * Q / (U * H_wc * r).

(** total_C = 0; for i in range(segments_per_lane): total_C += C_i *)
Definition total_C (L : float) (direction start_point : vec) (E : float)
    : float :=
  fold_left (fun total i => total + C_i L direction start_point E i)
            (seq 0 segments_per_lane) 0.

Definition lane_body (lane_name : string) (L : float)
    (direction start_point : vec) (l : lane_el) : trace row event :=
  for_each POLLUTANTS (fun pollutant =>
    match attrib l !! (pollutant +:+ "_normed") with
    | None => pass
    | Some Unparseable => raise ValueError
    | Some (Numeric normed) =>
        let E := normed * G_KM_H_TO_KG_M_S in
        append {| lane := lane_name; pollutant := pollutant;
                  total_concentration :=
                    total_C L direction start_point E * 1e9 |}
    end).

Definition edge (e : edge_el) : trace row event :=
  match lane_name_of e with
  | None => pass
  | Some lane_name =>
      match lane_lengths !! lane_name, lane_directions !! lane_name with
      | Some L, Some direction =>
          let start_point := start_point L direction in
          for_each (lanes e) (lane_body lane_name L direction start_point)
      | _, _ => raise KeyError
      end
  end.

Definition main_loop (root : root_el) : trace row event :=
  for_each root (fun interval => for_each (edges interval) edge).

(** the whole script: df = pd.DataFrame(results);
    df = df.groupby(["lane", "pollutant"], as_index=False).sum(); print(df).
    When no row was appended the DataFrame has no column "lane" and
    groupby raises KeyError. *)
Definition run (root : root_el) : trace row event :=
  let t := main_loop root in
  andthen t
    (if bool_decide (results t = []) then raise KeyError
     else print (Print_df (results t))).

End Disper.

(** ** disper_v3.py *)
Module DisperV3.

(** the receptors are arrays of Python ints *)
Definition receptors : list (Z * Z) := [(0, 0); (20, 0); (0, 30)]%Z.
Definition U : float := 1.0.
Definition H_wc : float := 50.0.

Definition EDGE_TO_LANE : gmap string string :=
  {[ "-1232571604" := "North Out"; "-29251749#0" := "South In";
     "-4922743#4" := "West Out"; "29251749#0" := "South Out";
     "1232571604" := "North In"; "617654357#1" := "East Out";
     "-617654357#1" := "East In"; "4922743#4" := "West In";
     "237386421" := "North In" ]}.

Definition LANE_DIRECTIONS : gmap string vec :=
  {[ "North In" := (0, -1); "North Out" := (0, 1);
     "South In" := (0, 1); "South Out" := (0, -1);
     "East In" := (-1, 0); "East Out" := (1, 0);
     "West In" := (1, 0); "West Out" := (-1, 0) ]}.

Definition LANE_LENGTHS : gmap string float :=
  {[ "North In" := 74.5; "North Out" := 74.5;
     "South In" := 24.46; "South Out" := 24.46;
     "East In" := 47.32; "East Out" := 47.32;
     "West In" := 71.45; "West Out" := 71.45 ]}.

(** one entry of [results] *)
Record row : Type := {
  lane : string;
  pollutant : string;
  segment_index : nat;
  x : float;
  y : float;
  receptor_idx : nat;
  receptor_x : Z;
  receptor_y : Z;
  distance_to_receptor_m : float;
  Q_kg_per_s : float;
  C_i_kg_per_m3 : float
}.

(** print(f"Processing lane: {lane_name} with direction {direction}") *)
Inductive event : Type :=
  | Processing_lane (lane_name : string) (direction : vec).

(** the float of a Python int *)
Definition of_int (z : Z) : float :=
  if (z <? 0)%Z then - of_uint63 (Uint63.of_Z (- z))
  else of_uint63 (Uint63.of_Z z).

(** the body of [for i in range(segments_per_lane)] *)
Definition segment (lane_name pollutant : string) (L : float)
    (direction start_point : vec) (emission_per_m : float) (i : nat)
    : trace row event :=
  let pos := get_segment_position start_point direction L i segments_per_lane in
  for_each (imap pair receptors) (fun '(receptor_idx, receptor) =>
    let r := norm (vsub pos (of_int receptor.1, of_int receptor.2)) in
    let r := if r =? 0 then 0.1 else r in
    let Q := emission_per_m * (L / of_nat segments_per_lane) in
    let C_i := 10 * Q / (U * H_wc * r) in
    append {| lane := lane_name; pollutant := pollutant; segment_index := i;
              x := pos.1; y := pos.2;
              receptor_idx := receptor_idx;
              receptor_x := receptor.1; receptor_y := receptor.2;
              distance_to_receptor_m := r;
              Q_kg_per_s := Q; C_i_kg_per_m3 := C_i |}).

(** the body of [for lane in edge.findall("lane")]; the lane name is looked
    up once for every lane element *)
Definition lane_body (edge_id : option string) (l : lane_el)
    : trace row event :=
  match edge_id ≫= (EDGE_TO_LANE !!.) with
  | None => pass
  | Some lane_name =>
      match LANE_DIRECTIONS !! lane_name with
      | None => raise KeyError
      | Some direction =>
          match LANE_LENGTHS !! lane_name with
          | None => raise KeyError
          | Some L =>
              andthen (print (Processing_lane lane_name direction))
                (let start_point := start_point L direction in
                 for_each POLLUTANTS (fun pollutant =>
                   match get_float_default l (pollutant +:+ "_normed") with
                   | None => raise ValueError
                   | Some normed_val =>
                       let emission_per_m := normed_val * 1e-6 / 3600 in
                       for_each (seq 0 segments_per_lane)
                         (segment lane_name pollutant L direction start_point
                                  emission_per_m)
                   end))
          end
      end
  end.

Definition edge (e : edge_el) : trace row event :=
  for_each (lanes e) (lane_body (id e)).

(** the loop that fills [results] *)
Definition main_loop (root : root_el) : trace row event :=
  for_each root (fun interval => for_each (edges interval) edge).

(** df["C_i_ug_per_m3"] = df["C_i_kg_per_m3"] * 1e9 *)
Definition C_i_ug_per_m3 (r : row) : float := C_i_kg_per_m3 r * 1e9.

(** df["lane"].str.extract(r"(North|South|East|West)") and
    df["lane"].str.extract(r"(In|Out)") *)
Definition direction (r : row) : option string :=
  Exact.str_extract ["North"; "South"; "East"; "West"] (lane r).
Definition flow (r : row) : option string :=
  Exact.str_extract ["In"; "Out"] (lane r).

Section Tables.
Variable acc : accumulator.

Definition lane_pollutant_agg : list row -> list (string * string * float) :=
  groupby_sum acc (fun r => Some (lane r, pollutant r)) C_i_ug_per_m3.
Definition dir_pollutant_agg : list row -> list (string * string * float) :=
  groupby_sum acc (fun r => d ← direction r; Some (d, pollutant r))
              C_i_ug_per_m3.
Definition flow_pollutant_agg : list row -> list (string * string * float) :=
  groupby_sum acc (fun r => f ← flow r; Some (f, pollutant r)) C_i_ug_per_m3.
Definition overall_pollutant_agg : list row -> list (string * float) :=
  groupby_sum acc (fun r => Some (pollutant r)) C_i_ug_per_m3.
Definition receptor_pollutant_agg
    : list row -> list (nat * Z * Z * string * float) :=
  groupby_sum acc
    (fun r => Some (receptor_idx r, receptor_x r, receptor_y r, pollutant r))
    C_i_ug_per_m3.
End Tables.

End DisperV3.

(** ** v2_better_disper.py: the arithmetic of the loop body *)
Module V2.

Definition wind_speed : float := 1.0.
Definition mixing_height : float := 50.0.

Definition emission_per_m (normed_val : float) : float :=
  normed_val * 1e-6 / 3600.

Definition Q (normed_val L : float) : float :=
  emission_per_m normed_val * (L / of_nat segments_per_lane).

(** r = np.linalg.norm(pos - receptor); if r == 0: r = 0.1 *)
Definition r_used (pos receptor : vec) : float :=
  let r := norm (vsub pos receptor) in
  if r =? 0 then 0.1 else r.

Definition C_i (Q r : float) : float :=
  10 * Q / (wind_speed * mixing_height * 0.1 * r).

Definition C_i_ug (Q r : float) : float := C_i Q r * 1e9.

(** the directions are arrays of Python ints *)
Definition LANE_DIRECTIONS : gmap string vec :=
  {[ "North" := (0, -1); "South" := (0, 1);
     "East" := (1, 0); "West" := (-1, 0) ]}.

Definition LANE_LENGTHS : gmap string float :=
  {[ "North" := 74.5; "South" := 24.46; "East" := 47.32; "West" := 71.45 ]}.

(** the positions the main loop visits: i in range(segments_per_lane) *)
Definition segment_positions (start direction : vec) (L : float) (n : nat)
    : list vec :=
  map (fun i => get_segment_position start direction L i n) (seq 0 n).

End V2.

(** ** v3_better_disper.py *)
Module V3.

Definition get_segment_positions
    (start direction : vec) (length : float) (num_segments : nat) : list vec :=
  let relative_positions :=
    linspace (- length / 2 + length / of_nat (2 * num_segments))
             (length / 2 - length / of_nat (2 * num_segments))
             num_segments in
  map (fun d => vadd start (vscale direction d)) relative_positions.

(** start_point = np.array([0.0, 0.0]) *)
Definition start_point : vec := (0, 0).

End V3.

End Binary64.

(** * Properties of the exact embedding *)

Section ExactFacts.
Import Exact.
#[local] Open Scope R_scope.

(** ** Helper lemmas on the numpy primitives *)

Lemma norm_vertical (y : R) : 0 <= y -> norm (0, y) = y.
Proof.
  intros Hy. unfold norm. simpl.
  replace (0 * 0 + y * y) with (y * y) by lra.
  apply sqrt_square. exact Hy.
Qed.

Lemma Rabs_le_bounds (x a : R) : Rabs x <= a -> - a <= x <= a.
Proof. unfold Rabs. destruct (Rcase_abs x); lra. Qed.

Lemma Int_part_unique (r : R) (z : Z) :
  IZR z <= r -> r < IZR z + 1 -> Int_part r = z.
Proof.
  intros Hlo Hhi. unfold Int_part.
  assert (Hup : (z + 1)%Z = up r).
  { apply up_tech; [exact Hlo | rewrite plus_IZR; simpl; lra]. }
  lia.
Qed.

Lemma fmod_range (x m : R) : 0 < m -> 0 <= fmod x m < m.
Proof.
  intros Hm. unfold fmod.
  destruct (base_Int_part (x / m)) as [Hlo Hhi].
  set (q := IZR (Int_part (x / m))) in *.
  assert (Hx : x = m * (x / m)) by (field; lra).
  split; nra.
Qed.

Lemma fmod_small (x m : R) : 0 <= x < m -> fmod x m = x.
Proof.
  intros [Hlo Hhi]. unfold fmod.
  rewrite (Int_part_unique (x / m) 0).
  - lra.
  - simpl. apply Rmult_le_pos; [lra|]. apply Rlt_le, Rinv_0_lt_compat. lra.
  - simpl. apply (Rmult_lt_reg_r m); [lra|]. unfold Rdiv.
    rewrite Rmult_assoc, Rinv_l by lra. lra.
Qed.

Lemma fmod_shift (x m : R) (k : Z) :
  0 < m -> IZR k * m <= x < (IZR k + 1) * m -> fmod x m = x - IZR k * m.
Proof.
  intros Hm [Hlo Hhi]. unfold fmod.
  rewrite (Int_part_unique (x / m) k).
  - lra.
  - apply (Rmult_le_reg_r m); [lra|]. unfold Rdiv.
    rewrite Rmult_assoc, Rinv_l by lra. lra.
  - apply (Rmult_lt_reg_r m); [lra|]. unfold Rdiv.
    rewrite Rmult_assoc, Rinv_l by lra. lra.
Qed.

Lemma degrees_quarter : degrees (- (PI / 2)) = -90.
Proof. unfold degrees. field. apply PI_neq0. Qed.

(** ** The concrete scenario *)

Lemma north_segment_0_downwind :
  V2.is_downwind (0, 33.525) (0, 0) V2.wind_dir_deg V2.half_angle_deg = true.
Proof.
  unfold V2.is_downwind, V2.bearing, V2.downwind_center, vsub,
    V2.wind_dir_deg, V2.half_angle_deg. simpl fst; simpl snd.
  assert (Ha : arctan2 (0 - 33.525) (0 - 0) = - (PI / 2)).
  { unfold arctan2. repeat case_decide; lra. }
  rewrite Ha, degrees_quarter.
  rewrite !fmod_small by lra.
  apply bool_decide_eq_true.
  replace (-90 + 360 - (90 + 180)) with 0 by lra.
  rewrite Rabs_R0. unfold Rmin. case_match; lra.
Qed.

(** ** The unit conversion *)

(** C2 does not hold of better_disper.py: at the normalized rate 100
    the per-unit-length rate is not 100 times any constant within 1% of
    2.7778e-7. *)
Lemma C2_counterexample :
  BetterDisper.emission_per_m 100 = 100 * (1e-6 / 3600) /\
  ~ (exists k : R,
        Rabs (k - 2.7778e-7) <= 0.01 * 2.7778e-7 /\
        BetterDisper.emission_per_m 100 = 100 * k).
Proof.
  unfold BetterDisper.emission_per_m. split; [lra|].
  intros (k & Hk & Heq).
  apply Rabs_le_bounds in Hk. lra.
Qed.

(** C2, as it holds: in better_disper.py, v2_better_disper.py (and the
    scripts that share its loop body) and disper_v3.py the per-unit-length
    rate is the normalized rate times the fixed constant 1e-6/3600, which
    is 2.7778e-10 to five significant digits. *)
Theorem C2_conversion_constant (normed : R) :
  BetterDisper.emission_per_m normed = normed * (1e-6 / 3600) /\
  V2.emission_per_m normed = normed * (1e-6 / 3600) /\
  DisperV3.emission_per_m normed = normed * (1e-6 / 3600) /\
  Rabs (1e-6 / 3600 - 2.7778e-10) <= 0.00005e-10.
Proof.
  unfold BetterDisper.emission_per_m, V2.emission_per_m,
    DisperV3.emission_per_m.
  repeat split; try lra.
  apply Rabs_le. lra.
Qed.

(** disper.py multiplies by its constant G_KM_H_TO_KG_M_S = 2.7778e-7,
    a thousand times the factor of the other scripts (to the digits
    given). *)
Fact disper_conversion_constant (normed : R) :
  Disper.E normed = normed * 2.7778e-7 /\
  Rabs (Disper.G_KM_H_TO_KG_M_S - 1000 * (1e-6 / 3600)) <= 0.00005e-7.
Proof.
  unfold Disper.E, Disper.G_KM_H_TO_KG_M_S. split; [lra|].
  apply Rabs_le. lra.
Qed.

(** ** The concentration formula *)

(** C3 does not hold of disper.py, where no lateral spread factor
    appears: with Q = 1, U = 1, H = 50, d = 1 the script computes 0.2 and
    the formula gives 2. *)
Lemma C3_counterexample :
  Disper.C_i 1 50 1 1 = 0.2 /\
  10 * 1 / (1 * 50 * (0.1 * 1)) = 2 /\
  Disper.C_i 1 50 1 1 <> 10 * 1 / (1 * 50 * (0.1 * 1)).
Proof. unfold Disper.C_i. repeat split; lra. Qed.

(** C3, as it holds: for positive U, H and distance d, the concentration of
    v2_better_disper.py (and v3, v5_webapp, v7_webapp) and of
    better_disper.py is 10 Q / (U H (0.1 d)), and so is the screening
    concentration of tanga.py at the form distance d, before its unit
    scaling; disper.py and disper_v3.py have no lateral spread factor and
    compute 10 Q / (U H d), a tenth of it. *)
Theorem C3_concentration_formula (Q U H d : R) :
  0 < U -> 0 < H -> 0 < d ->
  V2.C_i U H Q d = 10 * Q / (U * H * (0.1 * d)) /\
  BetterDisper.C_i U H Q d = 10 * Q / (U * H * (0.1 * d)) /\
  Tanga.C_wc_kg U H Q d = 10 * Q / (U * H * (0.1 * d)) /\
  Disper.C_i U H Q d = 10 * Q / (U * H * d) /\
  DisperV3.C_i U H Q d = 10 * Q / (U * H * d) /\
  Disper.C_i U H Q d = 0.1 * (10 * Q / (U * H * (0.1 * d))).
Proof.
  intros HU HH Hd.
  assert (HUH : 0 < U * H) by (apply Rmult_lt_0_compat; assumption).
  assert (HUHd : 0 < U * H * d) by (apply Rmult_lt_0_compat; assumption).
  unfold V2.C_i, BetterDisper.C_i, Tanga.C_wc_kg, Tanga.W_wc, Disper.C_i,
    DisperV3.C_i.
  repeat split.
  - f_equal. ring.
  - f_equal. lra.
  - field. repeat split; lra.
Qed.

(** C3 at Q = 1, U = 1, H = 50, d = 2 *)
Lemma C3_concentration_formula_witness :
  V2.C_i 1 50 1 2 = 10 * 1 / (1 * 50 * (0.1 * 2)) /\
  Disper.C_i 1 50 1 2 = 10 * 1 / (1 * 50 * 2).
Proof.
  destruct (C3_concentration_formula 1 1 50 2 ltac:(lra) ltac:(lra) ltac:(lra))
    as (H1 & _ & _ & H4 & _).
  split; [exact H1 | exact H4].
Defined.

(** ** The distance clamp *)

(** C5 does not hold of v2_better_disper.py: the distance 0.05 is
    used as it is, not raised to 0.1, and the divisor 0.25 is below
    U * H * 0.1 * 0.1 = 0.5. *)
Lemma C5_counterexample :
  V2.r_used 0.05 = 0.05 /\
  V2.r_used 0.05 <> Rmax 0.05 0.1 /\
  1 * 50 * 0.1 * V2.r_used 0.05 < 1 * 50 * 0.1 * 0.1.
Proof.
  assert (H : V2.r_used 0.05 = 0.05).
  { unfold V2.r_used. case_decide; lra. }
  rewrite H. repeat split; try lra.
  unfold Rmax. case_match; lra.
Qed.

(** C5, as it holds: disper.py uses max(d, 0.1), so its divisor U H r is at
    least U H 0.1; v2_better_disper.py, better_disper.py and disper_v3.py
    replace only the distance 0 by 0.1 and use every other distance
    unchanged, so that for a distance d >= 0 the distance used is positive
    and the divisor is not zero. *)
Theorem C5_distance_clamp (U H d : R) :
  0 < U -> 0 < H -> 0 <= d ->
  Disper.r_used d = Rmax d 0.1 /\
  0.1 <= Disper.r_used d /\
  U * H * 0.1 * 0.1 <= U * H * 0.1 <= U * H * Disper.r_used d /\
  V2.r_used 0 = 0.1 /\
  BetterDisper.dist_used 0 = 0.1 /\
  DisperV3.r_used 0 = 0.1 /\
  (d <> 0 -> V2.r_used d = d /\ BetterDisper.dist_used d = d /\
             DisperV3.r_used d = d) /\
  0 < V2.r_used d /\
  0 < U * H * 0.1 * V2.r_used d.
Proof.
  intros HU HH Hd.
  assert (HUH : 0 < U * H) by (apply Rmult_lt_0_compat; assumption).
  assert (Hmax : 0.1 <= Disper.r_used d) by apply Rmax_r.
  assert (Hpos : 0 < V2.r_used d).
  { unfold V2.r_used. case_decide; lra. }
  unfold BetterDisper.dist_used, DisperV3.r_used.
  repeat split; try (unfold V2.r_used; case_decide; lra); try nra.
  all: case_decide; lra.
Qed.

(** C5 at U = 1, H = 50, d = 0.05 *)
Lemma C5_distance_clamp_witness :
  Disper.r_used 0.05 = Rmax 0.05 0.1 /\ V2.r_used 0 = 0.1.
Proof.
  destruct (C5_distance_clamp 1 50 0.05 ltac:(lra) ltac:(lra) ltac:(lra))
    as (H1 & _ & _ & H4 & _).
  split; [exact H1 | exact H4].
Defined.

(** ** Monotonicity in the distance *)

Lemma quotient_decreasing (a c d1 d2 : R) :
  0 < a -> 0 < c -> 0 < d1 -> d1 < d2 -> a / (c * d2) < a / (c * d1).
Proof.
  intros Ha Hc Hd1 Hlt. unfold Rdiv.
  assert (H1 : 0 < c * d1) by (apply Rmult_lt_0_compat; lra).
  assert (H2 : 0 < c * d2) by (apply Rmult_lt_0_compat; lra).
  apply Rmult_lt_compat_l; [exact Ha|].
  apply Rinv_lt_contravar.
  - apply Rmult_lt_0_compat; assumption.
  - apply Rmult_lt_compat_l; assumption.
Qed.

(** C7 does not hold inside the clamp: disper.py gives the same
    concentration at the distances 0.01 and 0.05, and v2_better_disper.py
    gives a smaller concentration at distance 0 than at distance 0.05. *)
Lemma C7_counterexample :
  (0.01 < 0.05 /\
   ~ Disper.concentration 1 50 1 0.05 < Disper.concentration 1 50 1 0.01) /\
  (0 < 0.05 /\
   ~ V2.concentration 1 50 1 0.05 < V2.concentration 1 50 1 0).
Proof.
  assert (Hd : forall d, d <= 0.1 -> Disper.r_used d = 0.1).
  { intros d Hle. unfold Disper.r_used. apply Rmax_right. exact Hle. }
  assert (H0 : V2.r_used 0 = 0.1).
  { unfold V2.r_used. case_decide; lra. }
  assert (H5 : V2.r_used 0.05 = 0.05).
  { unfold V2.r_used. case_decide; lra. }
  unfold Disper.concentration, V2.concentration.
  rewrite !Hd by lra. rewrite H0, H5. unfold V2.C_i.
  repeat split; lra.
Qed.

(** C7, as it holds: for Q, U, H > 0 and d1 < d2 the concentration is strictly
    smaller at d2 than at d1 when 0.1 <= d1 in disper.py, and when 0 < d1 in
    v2_better_disper.py and better_disper.py. *)
Theorem C7_strictly_decreasing (Q U H d1 d2 : R) :
  0 < Q -> 0 < U -> 0 < H -> d1 < d2 ->
  (0.1 <= d1 ->
   Disper.concentration U H Q d2 < Disper.concentration U H Q d1) /\
  (0 < d1 ->
   V2.concentration U H Q d2 < V2.concentration U H Q d1 /\
   BetterDisper.concentration U H Q d2 < BetterDisper.concentration U H Q d1).
Proof.
  intros HQ HU HH Hlt.
  assert (HUH : 0 < U * H) by (apply Rmult_lt_0_compat; assumption).
  split.
  - intros Hd1. unfold Disper.concentration, Disper.C_i, Disper.r_used.
    rewrite !Rmax_left by lra.
    apply quotient_decreasing; lra.
  - intros Hd1.
    unfold V2.concentration, V2.C_i, V2.r_used,
      BetterDisper.concentration, BetterDisper.C_i, BetterDisper.dist_used.
    repeat case_decide; try lra.
    split.
    + apply quotient_decreasing; nra.
    + replace (U * H * (0.1 * d2)) with (U * H * 0.1 * d2) by ring.
      replace (U * H * (0.1 * d1)) with (U * H * 0.1 * d1) by ring.
      apply quotient_decreasing; nra.
Qed.

(** C7 at Q = 1, U = 1, H = 50, d1 = 1, d2 = 2 *)
Lemma C7_strictly_decreasing_witness :
  Disper.concentration 1 50 1 2 < Disper.concentration 1 50 1 1 /\
  V2.concentration 1 50 1 2 < V2.concentration 1 50 1 1.
Proof.
  destruct (C7_strictly_decreasing 1 1 50 1 2
              ltac:(lra) ltac:(lra) ltac:(lra) ltac:(lra)) as [HD HV].
  split.
  - apply HD. lra.
  - apply HV. lra.
Defined.

(** ** The two segment decompositions *)

Lemma linspace_closed_form (a b : R) (div : nat) :
  (0 < div)%nat ->
  linspace a b (S div) =
  map (fun i => a + INR i * ((b - a) / INR div)) (seq 0 (S div)).
Proof.
  intros Hdiv. unfold linspace.
  destruct div as [|div']; [lia|].
  rewrite (seq_S (S div') 0), map_app. simpl seq at 2. simpl map at 3.
  f_equal. f_equal.
  assert (Hne : INR (S div') <> 0) by (apply not_0_INR; lia).
  simpl (0 + S div')%nat. field. exact Hne.
Qed.

Lemma v3_relative_positions (L : R) (N : nat) :
  (0 < N)%nat ->
  linspace (- L / 2 + L / (2 * INR N)) (L / 2 - L / (2 * INR N)) N =
  map (fun i => (INR i + 0.5) * (L / INR N) - L / 2) (seq 0 N).
Proof.
  intros HN. destruct N as [|div]; [lia|].
  assert (Hne : INR (S div) <> 0) by (apply not_0_INR; lia).
  destruct div as [|div'].
  - simpl. f_equal. lra.
  - rewrite linspace_closed_form by lia.
    apply map_ext. intros i.
    assert (Hne' : INR (S div') <> 0) by (apply not_0_INR; lia).
    rewrite (S_INR (S div')) in *.
    assert (Hpos : 0 <= INR (S div')) by apply pos_INR.
    generalize dependent (INR (S div')). generalize (INR i).
    intros x n _ Hn Hpos. replace 0.5 with (1 / 2) by lra. field. lra.
Qed.

(** In exact arithmetic the two position formulas are the same function:
    for every anchor, direction, length L and N > 0, get_segment_position
    started at anchor - 0.5*L*direction and get_segment_positions started
    at anchor both give anchor + direction * ((i + 0.5) * L / N - L / 2)
    for i = 0 .. N-1.  What the scripts compute in binary64 differs from
    this by rounding, and differently for the two formulas. *)
Lemma exact_decompositions_agree (anchor direction : vec) (L : R) (N : nat) :
  (0 < N)%nat ->
  V2.segment_positions (vadd anchor (start_point L direction)) direction L N =
    V3.get_segment_positions anchor direction L N /\
  V3.get_segment_positions anchor direction L N =
    map (fun i => vadd anchor
                    (vscale direction ((INR i + 0.5) * L / INR N - L / 2)))
        (seq 0 N) /\
  length (V3.get_segment_positions anchor direction L N) = N.
Proof.
  intros HN.
  assert (Hne : INR N <> 0) by (apply not_0_INR; lia).
  assert (H3 : V3.get_segment_positions anchor direction L N =
               map (fun i => vadd anchor
                     (vscale direction ((INR i + 0.5) * L / INR N - L / 2)))
                   (seq 0 N)).
  { unfold V3.get_segment_positions. rewrite v3_relative_positions by exact HN.
    rewrite map_map. apply map_ext. intros i.
    unfold vadd, vscale. simpl. replace 0.5 with (1 / 2) by lra.
    f_equal; field; exact Hne. }
  split; [|split].
  - rewrite H3. unfold V2.segment_positions. apply map_ext. intros i.
    unfold get_segment_position, start_point, vadd, vscale, sscale. simpl.
    replace 0.5 with (1 / 2) by lra. replace (-0.5) with (- (1 / 2)) by lra.
    f_equal; field; exact Hne.
  - exact H3.
  - rewrite H3, length_map, length_seq. reflexivity.
Qed.

(** ** The downwind filter *)

Lemma bearing_range (src target : vec) : 0 <= V2.bearing src target < 360.
Proof. unfold V2.bearing. apply fmod_range. lra. Qed.


Lemma downwind_center_cases (w : R) :
  0 <= w < 360 ->
  V2.downwind_center w = (if decide (w < 180) then w + 180 else w - 180).
Proof.
  intros Hw. unfold V2.downwind_center. case_decide.
  - apply fmod_small. lra.
  - rewrite (fmod_shift _ _ 1) by lra. lra.
Qed.




End ExactFacts.

(** ** The aggregation in exact arithmetic *)

Section AggregatorFacts.
Import Exact.
#[local] Open Scope R_scope.
Context {Row K : Type} `{EqDecision K}.
Variable key : Row -> option K.
Variable value : Row -> R.

Lemma total_accumulate (k k' : K) (v : R) (acc : list (K * R)) :
  total k (accumulate k' v acc) =
  if decide (k = k')
  then Some (match total k acc with Some s => s + v | None => v end)
  else total k acc.
Proof.
  induction acc as [|[k0 s0] rest IH]; simpl.
  - repeat case_decide; congruence.
  - destruct (decide (k' = k0)) as [->|Hne]; simpl.
    + repeat case_decide; congruence.
    + rewrite IH. repeat case_decide; congruence.
Qed.

Lemma total_fold (k : K) (rows : list Row) (acc : list (K * R)) :
  total k
    (fold_left
       (fun acc r =>
          match key r with
          | Some k => accumulate k (value r) acc
          | None => acc
          end) rows acc) =
  fold_left (step_total key value k) rows (total k acc).
Proof.
  revert acc. induction rows as [|r rows IH]; intros acc; simpl.
  - reflexivity.
  - rewrite IH. f_equal. unfold step_total.
    destruct (key r) as [k'|].
    + rewrite total_accumulate. repeat case_decide; congruence.
    + case_decide; congruence.
Qed.

Lemma step_total_swap (k : K) (o : option R) (r1 r2 : Row) :
  step_total key value k (step_total key value k o r1) r2 =
  step_total key value k (step_total key value k o r2) r1.
Proof.
  unfold step_total. repeat case_decide; try reflexivity.
  destruct o; f_equal; lra.
Qed.

Lemma fold_step_total_permutation (k : K) (rows1 rows2 : list Row) :
  rows1 ≡ₚ rows2 ->
  forall o,
    fold_left (step_total key value k) rows1 o =
    fold_left (step_total key value k) rows2 o.
Proof.
  induction 1 as [|r l1 l2 _ IH|r1 r2 l|l1 l2 l3 _ IH1 _ IH2]; intros o; simpl.
  - reflexivity.
  - apply IH.
  - rewrite step_total_swap. reflexivity.
  - rewrite IH1. apply IH2.
Qed.

Lemma keys_accumulate (k : K) (v : R) (acc : list (K * R)) :
  (accumulate k v acc).*1 =
  if decide (k ∈ acc.*1) then acc.*1 else acc.*1 ++ [k].
Proof.
  induction acc as [|[k0 s0] rest IH]; csimpl.
  - destruct (decide (k ∈ [])) as [Hin|_]; [|reflexivity].
    by apply elem_of_nil in Hin.
  - destruct (decide (k = k0)) as [->|Hne]; csimpl.
    + rewrite decide_True by apply list_elem_of_here. reflexivity.
    + rewrite IH. destruct (decide (k ∈ rest.*1)) as [Hin|Hnin].
      * rewrite decide_True by (by apply list_elem_of_further). reflexivity.
      * rewrite decide_False; [reflexivity|].
        intros Hin. apply elem_of_cons in Hin as [?|?]; congruence.
Qed.

Lemma NoDup_keys_fold (rows : list Row) (acc : list (K * R)) :
  NoDup acc.*1 ->
  NoDup (fold_left
           (fun acc r =>
              match key r with
              | Some k => accumulate k (value r) acc
              | None => acc
              end) rows acc).*1.
Proof.
  revert acc. induction rows as [|r rows IH]; intros acc Hnd; simpl.
  - exact Hnd.
  - apply IH. destruct (key r) as [k|]; [|exact Hnd].
    rewrite keys_accumulate. case_decide as Hin; [exact Hnd|].
    apply NoDup_app. split; [exact Hnd|]. split.
    + intros x Hx Hx'. apply list_elem_of_singleton in Hx'. congruence.
    + apply NoDup_singleton.
Qed.

Lemma elem_of_total (table : list (K * R)) (k : K) (s : R) :
  NoDup table.*1 -> (k, s) ∈ table <-> total k table = Some s.
Proof.
  induction table as [|[k0 s0] rest IH]; csimpl; intros Hnd.
  - split; [intros Hin; by apply elem_of_nil in Hin | discriminate].
  - apply NoDup_cons in Hnd as [Hnin Hnd].
    rewrite elem_of_cons. case_decide as Heq.
    + subst k0. split.
      * intros [Hhd|Htl]; [congruence|].
        exfalso. apply Hnin. apply list_elem_of_fmap.
        exists (k, s). split; [reflexivity | exact Htl].
      * intros [= ->]. left. reflexivity.
    + rewrite <- (IH Hnd). split.
      * intros [Hhd|Htl]; [congruence | exact Htl].
      * intros Htl. right. exact Htl.
Qed.

(** In exact arithmetic the order of the contributions does not matter:
    for any two orderings of the same contributions every key has the
    same total, and the two result tables hold the same entries.  The
    binary64 sums of the scripts do depend on the order. *)
Lemma exact_aggregation_order_independent (rows1 rows2 : list Row) :
  rows1 ≡ₚ rows2 ->
  (forall k : K,
     total k (groupby_sum key value rows1) =
     total k (groupby_sum key value rows2)) /\
  groupby_sum key value rows1 ≡ₚ groupby_sum key value rows2.
Proof.
  intros Hperm.
  assert (Htot : forall k : K,
             total k (groupby_sum key value rows1) =
             total k (groupby_sum key value rows2)).
  { intros k. unfold groupby_sum. rewrite !total_fold.
    apply fold_step_total_permutation. exact Hperm. }
  split; [exact Htot|].
  assert (Hnd : forall rows, NoDup (groupby_sum key value rows).*1).
  { intros rows. apply NoDup_keys_fold. apply NoDup_nil_2. }
  apply NoDup_Permutation.
  - eapply NoDup_fmap_1. apply Hnd.
  - eapply NoDup_fmap_1. apply Hnd.
  - intros [k s]. rewrite !elem_of_total by apply Hnd.
    rewrite Htot. reflexivity.
Qed.

End AggregatorFacts.

(** * Properties of the binary64 embedding *)

Section Binary64Facts.
Import Floats Binary64.
#[local] Set Warnings "-inexact-float".
#[local] Open Scope float_scope.

(** ** NaN and signed zeros *)

Lemma eq_nan (x : float) : Prim2SF x = S754_nan -> x = nan.
Proof. intros Hx. apply Prim2SF_inj. rewrite Hx. reflexivity. Qed.

Lemma mul_nan_l (y : float) : nan * y = nan.
Proof. apply eq_nan. rewrite mul_spec. reflexivity. Qed.

Lemma add_nan_l (y : float) : nan + y = nan.
Proof. apply eq_nan. rewrite add_spec. reflexivity. Qed.

Lemma ltb_nan_r (x : float) : (x <? nan) = false.
Proof.
  rewrite ltb_spec. change (Prim2SF nan) with S754_nan.
  destruct (Prim2SF x); reflexivity.
Qed.

Lemma is_zero_spec (x : float) :
  is_zero x = true <-> exists s, Prim2SF x = S754_zero s.
Proof.
  unfold is_zero. rewrite eqb_spec. change (Prim2SF zero) with (S754_zero false).
  destruct (Prim2SF x) as [s| | |s m e]; simpl.
  - split; [eauto | reflexivity].
  - split; [destruct s; discriminate | intros [? ?]; discriminate].
  - split; [discriminate | intros [? ?]; discriminate].
  - split; [destruct s; discriminate | intros [? ?]; discriminate].
Qed.

Lemma is_finite_not_infinity (x : float) (s : bool) :
  is_finite x = true -> Prim2SF x <> S754_infinity s.
Proof.
  unfold is_finite, is_infinity. rewrite eqb_spec, abs_spec.
  intros Hfin Hinf. rewrite Hinf in Hfin.
  rewrite orb_true_r in Hfin. discriminate.
Qed.

Lemma SFeqb_finite_eq (s1 s2 : bool) (m1 m2 : positive) (e1 e2 : Z) :
  SFeqb (S754_finite s1 m1 e1) (S754_finite s2 m2 e2) = true ->
  s1 = s2 /\ m1 = m2 /\ e1 = e2.
Proof.
  unfold SFeqb, SFcompare.
  destruct s1, s2; try discriminate;
    destruct (Z.compare_spec e1 e2) as [He|He|He]; try discriminate;
    change (Pos.compare_cont Eq m1 m2) with (Pos.compare m1 m2);
    destruct (Pos.compare_spec m1 m2) as [Hm|Hm|Hm]; try discriminate;
    auto.
Qed.

(** the difference of two equal finite floats is a zero *)
Lemma sub_coincident (x y : float) :
  (x =? y) = true -> is_finite x = true -> is_zero (y - x) = true.
Proof.
  intros Heq Hfin. apply is_zero_spec. rewrite sub_spec.
  rewrite eqb_spec in Heq.
  pose proof (is_finite_not_infinity x) as Hinf.
  destruct (Prim2SF x) as [sx|sx| |sx mx ex];
    try (exfalso; eapply Hinf; [exact Hfin | reflexivity]);
    destruct (Prim2SF y) as [sy|sy| |sy my ey];
    try discriminate Heq;
    try (destruct sx, sy; discriminate Heq).
  - destruct sx, sy; simpl; eauto.
  - apply SFeqb_finite_eq in Heq as (-> & -> & ->).
    unfold SF64sub, SFsub. rewrite Z.sub_diag. simpl. eauto.
Qed.

Lemma zero_squares (a b : float) :
  is_zero a = true -> is_zero b = true -> a * a + b * b = 0.
Proof.
  intros [sa Ha]%is_zero_spec [sb Hb]%is_zero_spec.
  apply Prim2SF_inj. rewrite add_spec, !mul_spec, Ha, Hb.
  destruct sa, sb; reflexivity.
Qed.

Lemma zero_div_zero (a : float) : is_zero a = true -> a / 0 = nan.
Proof.
  intros [sa Ha]%is_zero_spec. apply eq_nan. rewrite div_spec, Ha.
  reflexivity.
Qed.

(** ** The angle filter of better_disper.py at a coincident segment *)

Lemma norm_zero (v : vec) :
  is_zero v.1 = true -> is_zero v.2 = true -> norm v = 0.
Proof.
  intros H1 H2. unfold norm, dot. rewrite zero_squares by assumption.
  reflexivity.
Qed.

Lemma angle_between_zero (acos_finite : float -> float) (v w : vec) :
  is_zero v.1 = true -> is_zero v.2 = true ->
  BetterDisper.angle_between acos_finite v w = nan.
Proof.
  intros H1 H2. unfold BetterDisper.angle_between.
  rewrite (norm_zero v H1 H2). unfold vdiv, dot. simpl fst. simpl snd.
  rewrite !zero_div_zero by assumption.
  rewrite !mul_nan_l, add_nan_l.
  change (clip nan (-1.0) 1.0) with nan.
  change (BetterDisper.arccos acos_finite nan) with nan.
  unfold degrees. apply mul_nan_l.
Qed.

(** C9: in better_disper.py, when the position of a segment equals the
    receptor (both coordinates compare equal and are finite), the vector to
    the receptor has zero components and zero norm, its normalization is
    (NaN, NaN), angle_between returns NaN, the test
    angle > angle_tolerance is false, and the segment appends a row whose
    distance is the replacement value 0.1 and whose concentration is
    computed with it; this holds for every wind vector, every tolerance
    and every behaviour of arccos on numbers. *)
Theorem C9_coincident_segment_passes
    (receptor wind_vec : vec) (angle_tolerance : float)
    (acos_finite : float -> float)
    (side pollutant : string) (length : float)
    (direction start_point : vec) (emission_per_m : float) (i : nat) :
  let pos :=
    get_segment_position start_point direction length i segments_per_lane in
  (pos.1 =? receptor.1) = true -> (pos.2 =? receptor.2) = true ->
  is_finite pos.1 = true -> is_finite pos.2 = true ->
  let v := vsub receptor pos in
  let Q_i := emission_per_m * (length / of_nat segments_per_lane) in
  is_zero v.1 = true /\ is_zero v.2 = true /\
  norm v = 0 /\
  vdiv v (norm v) = (nan, nan) /\
  BetterDisper.angle_between acos_finite v wind_vec = nan /\
  (angle_tolerance <? BetterDisper.angle_between acos_finite v wind_vec)
    = false /\
  BetterDisper.segment receptor wind_vec angle_tolerance acos_finite
    side pollutant length direction start_point emission_per_m i =
  append
    {| BetterDisper.side := side;
       BetterDisper.pollutant := pollutant;
       BetterDisper.segment_index := i;
       BetterDisper.x := pos.1;
       BetterDisper.y := pos.2;
       BetterDisper.Q_kg_per_s := Q_i;
       BetterDisper.C_i_kg_per_m3 :=
         10 * Q_i / (BetterDisper.U * BetterDisper.H_wc * (0.1 * 0.1));
       BetterDisper.C_i_ug_per_m3 :=
         10 * Q_i / (BetterDisper.U * BetterDisper.H_wc * (0.1 * 0.1)) * 1e9;
       BetterDisper.distance_to_receptor_m := 0.1;
       BetterDisper.angle_deg := nan |}.
Proof.
  intros pos Hx Hy Hfx Hfy v Q_i.
  assert (H1 : is_zero v.1 = true) by (apply sub_coincident; assumption).
  assert (H2 : is_zero v.2 = true) by (apply sub_coincident; assumption).
  assert (Hn : norm v = 0) by (apply norm_zero; assumption).
  assert (Ha : BetterDisper.angle_between acos_finite v wind_vec = nan)
    by (apply angle_between_zero; assumption).
  split; [exact H1|]. split; [exact H2|]. split; [exact Hn|].
  split.
  { rewrite Hn. unfold vdiv. rewrite !zero_div_zero by assumption.
    reflexivity. }
  split; [exact Ha|].
  split; [rewrite Ha; apply ltb_nan_r|].
  unfold BetterDisper.segment. fold pos. fold v.
  rewrite Ha, ltb_nan_r, Hn.
  change (0 =? 0) with true. cbv iota. reflexivity.
Qed.

(** C9 at segment 0 of the lane "North In" with the receptor placed on it,
    wind from the north, tolerance 45 *)
Lemma C9_coincident_segment_passes_witness :
  BetterDisper.distance_to_receptor_m <$>
    results
      (BetterDisper.segment (0, 33.525) (-1, 1.2246467991473532e-16) 45
         (fun _ => 0) "North" "CO" 74.5 (0, -1) (start_point 74.5 (0, -1))
         (BetterDisper.emission_per_m 100) 0)
  = [0.1].
Proof.
  pose proof (C9_coincident_segment_passes
                (0, 33.525) (-1, 1.2246467991473532e-16) 45 (fun _ => 0)
                "North" "CO" 74.5 (0, -1) (start_point 74.5 (0, -1))
                (BetterDisper.emission_per_m 100) 0
                ltac:(vm_compute; reflexivity) ltac:(vm_compute; reflexivity)
                ltac:(vm_compute; reflexivity) ltac:(vm_compute; reflexivity))
    as (_ & _ & _ & _ & _ & _ & Hseg).
  rewrite Hseg. reflexivity.
Defined.

(** ** Loops over traces *)

Section TraceFacts.
Context {Row Event A : Type}.
Implicit Types (body : A -> trace Row Event) (l : list A).

Lemma for_each_cons body (a : A) l :
  for_each (a :: l) body = andthen (body a) (for_each l body).
Proof. reflexivity. Qed.

Lemma andthen_not_raised (t1 t2 : trace Row Event) :
  raised (andthen t1 t2) = None ->
  raised t1 = None /\ raised t2 = None /\
  results (andthen t1 t2) = results t1 ++ results t2 /\
  stdout (andthen t1 t2) = stdout t1 ++ stdout t2.
Proof.
  unfold andthen. destruct (raised t1) eqn:H1; simpl.
  - rewrite H1. discriminate.
  - auto.
Qed.

(** iterations that append nothing and raise nothing can be left out *)
Lemma for_each_skip (skipped : A -> bool) body l :
  (forall a, skipped a = true ->
             results (body a) = [] /\ raised (body a) = None) ->
  results (for_each l body) =
    results (for_each (List.filter (fun a => negb (skipped a)) l) body) /\
  raised (for_each l body) =
    raised (for_each (List.filter (fun a => negb (skipped a)) l) body).
Proof.
  intros Hskip. induction l as [|a l [IHres IHraised]]; [by split|].
  simpl List.filter. destruct (skipped a) eqn:Hs; simpl negb; cbv iota.
  - destruct (Hskip a Hs) as [Hres Hraised].
    rewrite for_each_cons. unfold andthen. rewrite Hraised, Hres. simpl.
    by split.
  - rewrite !for_each_cons. unfold andthen.
    destruct (raised (body a)); [by split|]. simpl.
    rewrite IHres, IHraised. by split.
Qed.

Lemma for_each_map {B : Type} (g : A -> B) (body : A -> trace Row Event)
    (body' : B -> trace Row Event) l :
  (forall a, results (body a) = results (body' (g a)) /\
             raised (body a) = raised (body' (g a))) ->
  results (for_each l body) = results (for_each (map g l) body') /\
  raised (for_each l body) = raised (for_each (map g l) body').
Proof.
  intros Hg. induction l as [|a l [IHres IHraised]]; [by split|].
  cbn [map for_each]. unfold andthen.
  destruct (Hg a) as [Hres Hraised]. rewrite <- Hraised.
  destruct (raised (body a)) eqn:Hr; [split; congruence|]. simpl.
  rewrite Hres, IHres, IHraised. by split.
Qed.

(** a property of the printed lines that every iteration has *)
Lemma for_each_stdout_nil {B : Type} (f : list Event -> list B) body l :
  f [] = [] ->
  (forall o1 o2, f (o1 ++ o2) = f o1 ++ f o2) ->
  (forall a, f (stdout (body a)) = []) ->
  f (stdout (for_each l body)) = [].
Proof.
  intros Hnil Happ Hbody. induction l as [|a l IH]; [exact Hnil|].
  rewrite for_each_cons. unfold andthen.
  destruct (raised (body a)); [apply Hbody|]. simpl.
  rewrite Happ, Hbody, IH. reflexivity.
Qed.

Lemma andthen_pass_l (t : trace Row Event) : andthen pass t = t.
Proof. destruct t. reflexivity. Qed.

(** iterations that do nothing can be left out *)
Lemma for_each_pass (skipped : A -> bool) body l :
  (forall a, skipped a = true -> body a = pass) ->
  for_each l body =
  for_each (List.filter (fun a => negb (skipped a)) l) body.
Proof.
  intros Hskip. induction l as [|a l IH]; [reflexivity|].
  simpl List.filter. destruct (skipped a) eqn:Hs; simpl negb; cbv iota.
  - rewrite for_each_cons, (Hskip a Hs), andthen_pass_l. exact IH.
  - rewrite !for_each_cons, IH. reflexivity.
Qed.

Lemma for_each_map_eq {B : Type} (g : A -> B) (body : A -> trace Row Event)
    (body' : B -> trace Row Event) l :
  (forall a, body a = body' (g a)) ->
  for_each l body = for_each (map g l) body'.
Proof.
  intros Hg. induction l as [|a l IH]; [reflexivity|].
  cbn [map for_each]. rewrite Hg, IH. reflexivity.
Qed.

Lemma results_andthen_print (t : trace Row Event) (e : Event) :
  results (andthen t (print e)) = results t.
Proof.
  unfold andthen. destruct (raised t); [reflexivity|]. simpl.
  apply app_nil_r.
Qed.

Lemma raised_andthen_print (t : trace Row Event) (e : Event) :
  raised (andthen t (print e)) = raised t.
Proof.
  unfold andthen. destruct (raised t) eqn:Hr; [exact Hr | reflexivity].
Qed.
End TraceFacts.

(** ** Edges whose id is not in the registry *)

Lemma EDGE_TO_LANE_names_not_empty :
  map_Forall (fun _ name => name <> "") BetterDisper.EDGE_TO_LANE.
Proof. apply (bool_decide_unpack _). vm_compute. exact I. Qed.

Lemma falsy_unknown (e : edge_el) :
  BetterDisper.falsy (BetterDisper.lane_name_of e) = BetterDisper.unknown e.
Proof.
  unfold BetterDisper.unknown, BetterDisper.falsy.
  destruct (BetterDisper.lane_name_of e) as [name|] eqn:Hname.
  - rewrite (bool_decide_eq_false_2 (Some name = None)) by discriminate.
    apply bool_decide_eq_false_2.
    unfold BetterDisper.lane_name_of in Hname.
    destruct (id e) as [edge_id|]; [|discriminate]. simpl in Hname.
    exact (EDGE_TO_LANE_names_not_empty edge_id name Hname).
  - rewrite bool_decide_eq_true_2; reflexivity.
Qed.

Section UnknownLane.
Variables receptor wind_vec : vec.
Variable angle_tolerance : float.
Variable acos_finite : float -> float.

#[local] Abbreviation bd_edge :=
  (BetterDisper.edge receptor wind_vec angle_tolerance acos_finite).
#[local] Abbreviation bd_main_loop :=
  (BetterDisper.main_loop receptor wind_vec angle_tolerance acos_finite).
#[local] Abbreviation bd_run :=
  (BetterDisper.run receptor wind_vec angle_tolerance acos_finite).

Lemma better_disper_edge_unknown (e : edge_el) :
  BetterDisper.unknown e = true ->
  bd_edge e = print (BetterDisper.Warning_lane_name_not_found (id e)).
Proof.
  intros Hu. unfold BetterDisper.edge. rewrite falsy_unknown, Hu.
  reflexivity.
Qed.

Lemma warned_ids_app (o1 o2 : list BetterDisper.event) :
  BetterDisper.warned_ids (o1 ++ o2) =
  BetterDisper.warned_ids o1 ++ BetterDisper.warned_ids o2.
Proof. apply omap_app. Qed.

Lemma better_disper_edge_known (e : edge_el) :
  BetterDisper.unknown e = false ->
  BetterDisper.warned_ids (stdout (bd_edge e)) = [].
Proof.
  intros Hu. unfold BetterDisper.edge. rewrite falsy_unknown, Hu.
  destruct (BetterDisper.lane_name_of e ≫= _) as [side|]; [|reflexivity].
  destruct (BetterDisper.lane_name_of e ≫= _) as [info|]; [|reflexivity].
  apply for_each_stdout_nil; [reflexivity | apply warned_ids_app |].
  intros l. unfold BetterDisper.lane.
  apply for_each_stdout_nil; [reflexivity | apply warned_ids_app |].
  intros pollutant.
  destruct (get_float_default l _) as [normed_val|]; [|reflexivity].
  apply for_each_stdout_nil; [reflexivity | apply warned_ids_app |].
  intros i. unfold BetterDisper.segment.
  destruct (angle_tolerance <? _); reflexivity.
Qed.

Lemma better_disper_warnings_edges (es : list edge_el) :
  raised (for_each es bd_edge) = None ->
  BetterDisper.warned_ids (stdout (for_each es bd_edge)) =
  map id (List.filter BetterDisper.unknown es).
Proof.
  induction es as [|e es IH]; [reflexivity|].
  rewrite for_each_cons. intros Hr.
  apply andthen_not_raised in Hr as (_ & Hr2 & _ & ->).
  rewrite warned_ids_app, (IH Hr2). simpl List.filter.
  destruct (BetterDisper.unknown e) eqn:Hu.
  - rewrite (better_disper_edge_unknown e Hu). reflexivity.
  - rewrite (better_disper_edge_known e Hu). reflexivity.
Qed.

Lemma better_disper_warnings (root : root_el) :
  raised (bd_main_loop root) = None ->
  BetterDisper.warned_ids (stdout (bd_main_loop root)) =
  map id (List.filter BetterDisper.unknown (all_edges root)).
Proof.
  unfold BetterDisper.main_loop.
  induction root as [|interval root IH]; [reflexivity|].
  rewrite for_each_cons. intros Hr.
  apply andthen_not_raised in Hr as (Hr1 & Hr2 & _ & ->).
  rewrite warned_ids_app, (IH Hr2), (better_disper_warnings_edges _ Hr1).
  unfold all_edges. simpl flat_map.
  rewrite List.filter_app, map_app. reflexivity.
Qed.

Lemma better_disper_main_loop_skip (root : root_el) :
  results (bd_main_loop root) =
    results (bd_main_loop (without_edges BetterDisper.unknown root)) /\
  raised (bd_main_loop root) =
    raised (bd_main_loop (without_edges BetterDisper.unknown root)).
Proof.
  unfold BetterDisper.main_loop, without_edges.
  apply for_each_map. intros interval. simpl edges.
  apply for_each_skip. intros e Hu.
  rewrite (better_disper_edge_unknown e Hu). by split.
Qed.

Lemma disper_edge_unknown (e : edge_el) :
  Disper.unknown e = true -> Disper.edge e = pass.
Proof.
  unfold Disper.unknown, Disper.edge. intros Hu.
  apply bool_decide_eq_true in Hu. rewrite Hu. reflexivity.
Qed.

Lemma disper_main_loop_skip (root : root_el) :
  Disper.main_loop root =
  Disper.main_loop (without_edges Disper.unknown root).
Proof.
  unfold Disper.main_loop, without_edges.
  apply for_each_map_eq. intros interval. simpl edges.
  apply for_each_pass. exact disper_edge_unknown.
Qed.

(** C8 does not hold of disper.py: an edge whose id is not in
    edge_to_lane is skipped without any warning.  Beside an edge of the
    registry the run completes and the only line it prints is the final
    table, of the one row of the known edge; alone in the file the edge
    leaves no row, nothing is printed, and the script stops with KeyError
    at its groupby, as it does on a file without any edge. *)
Lemma C8_counterexample :
  let l := {| attrib := {[ "CO_normed" := Numeric 100 ]} |} in
  let unknown_edge := {| id := Some "no-such-edge"; lanes := [l] |} in
  let known_edge := {| id := Some "237386421"; lanes := [l] |} in
  let t := Disper.run [ {| edges := [unknown_edge; known_edge] |} ] in
  Disper.edge_to_lane !! "no-such-edge" = None /\
  stdout (Disper.edge unknown_edge) = [] /\
  raised t = None /\
  length (results t) = 1%nat /\
  stdout t = [Disper.Print_df (results t)] /\
  stdout (Disper.run [ {| edges := [unknown_edge] |} ]) = [] /\
  raised (Disper.run [ {| edges := [unknown_edge] |} ]) = Some KeyError /\
  raised (Disper.run []) = Some KeyError.
Proof. vm_compute. repeat split. Qed.

(** C8, as it holds: an edge whose id is absent from the registry is skipped:
    it appends no row and raises nothing, so that the rows of a run, and
    whether and how the run aborts, are those of the run on the file
    without such edges.  better_disper.py prints one warning for each such
    edge; disper.py prints none, and its whole trace is that of the file
    without such edges: when its loop is not aborted it stops with
    KeyError at the final groupby exactly when no row at all was
    appended, with such edges in the file or without. *)
Theorem C8_unknown_lane_skipped (e : edge_el) (root : root_el) :
  (BetterDisper.lane_name_of e = None ->
   bd_edge e = print (BetterDisper.Warning_lane_name_not_found (id e))) /\
  (Disper.lane_name_of e = None -> Disper.edge e = pass) /\
  results (bd_run root) =
    results (bd_run (without_edges BetterDisper.unknown root)) /\
  raised (bd_run root) =
    raised (bd_run (without_edges BetterDisper.unknown root)) /\
  (raised (bd_run root) = None ->
   BetterDisper.warned_ids (stdout (bd_main_loop root)) =
   map id (List.filter BetterDisper.unknown (all_edges root))) /\
  Disper.run root = Disper.run (without_edges Disper.unknown root) /\
  (raised (Disper.main_loop root) = None ->
   raised (Disper.run root) =
   if bool_decide (results (Disper.main_loop root) = []) then Some KeyError
   else None).
Proof.
  destruct (better_disper_main_loop_skip root) as [Hres Hraised].
  split; [|split; [|split; [|split; [|split; [|split]]]]].
  - intros Hnone. apply better_disper_edge_unknown.
    unfold BetterDisper.unknown. rewrite Hnone. reflexivity.
  - intros Hnone. apply disper_edge_unknown.
    unfold Disper.unknown. rewrite Hnone. reflexivity.
  - unfold BetterDisper.run. rewrite !results_andthen_print. exact Hres.
  - unfold BetterDisper.run. rewrite !raised_andthen_print. exact Hraised.
  - unfold BetterDisper.run. rewrite raised_andthen_print.
    apply better_disper_warnings.
  - unfold Disper.run. rewrite <- disper_main_loop_skip. reflexivity.
  - intros Hloop. unfold Disper.run, andthen. rewrite Hloop.
    destruct (bool_decide (results (Disper.main_loop root) = []));
      reflexivity.
Qed.

End UnknownLane.

End Binary64Facts.

(** * The concrete scenario, in both embeddings *)

Section Scenario.
Import Floats.
#[local] Set Warnings "-inexact-float".

(** C1: lane "North", direction (0,-1), length 74.5 m, start at
    -0.5*L*direction, 10 segments, normalized rate 100 g/(km h), receptor
    (0,0), wind speed 1, mixing height 50: segment 0 lies at (0, 33.525),
    the per-length rate is within 1% of 2.7778e-8, the segment rate within
    1% of 2.0694e-7, the distance is 33.525 (not replaced), and the
    concentration is within 1% of 1.2347e-8 kg/m3, that is of 12.347 ug/m3,
    in v2_better_disper.py and in better_disper.py alike; with the wind
    direction of v2_better_disper.py the segment passes the downwind
    filter.  The same holds of the binary64 values the scripts compute. *)
Theorem C1_concrete_scenario :
  (Exact.V2.LANE_DIRECTIONS !! "North" = Some (0, -1) /\
   Exact.V2.LANE_LENGTHS !! "North" = Some 74.5 /\
   let direction : Exact.vec := (0, -1) in
   let L := 74.5 in
   let receptor : Exact.vec := (0, 0) in
   let pos := Exact.get_segment_position (Exact.start_point L direction)
                direction L 0 segments_per_lane in
   let r := Exact.norm (Exact.vsub pos receptor) in
   let Q := Exact.V2.Q 100 L segments_per_lane in
   pos = (0, 33.525) /\
   Rabs (Exact.V2.emission_per_m 100 - 2.7778e-8) <= 0.01 * 2.7778e-8 /\
   Rabs (Q - 2.0694e-7) <= 0.01 * 2.0694e-7 /\
   r = 33.525 /\
   Exact.V2.r_used r = 33.525 /\
   Exact.V2.is_downwind pos receptor Exact.V2.wind_dir_deg
     Exact.V2.half_angle_deg = true /\
   Rabs (Exact.V2.C_i 1.0 50.0 Q (Exact.V2.r_used r) - 1.2347e-8)
     <= 0.01 * 1.2347e-8 /\
   Rabs (Exact.V2.C_i_ug 1.0 50.0 Q (Exact.V2.r_used r) - 12.347)
     <= 0.01 * 12.347 /\
   Exact.BetterDisper.Q_i 100 L segments_per_lane = Q /\
   Exact.BetterDisper.C_i 1.0 50.0 Q (Exact.BetterDisper.dist_used r) =
     Exact.V2.C_i 1.0 50.0 Q (Exact.V2.r_used r))%R /\
  (let direction : Binary64.vec := (0, -1) in
   let L := 74.5 in
   let receptor : Binary64.vec := (0, 0) in
   let pos := Binary64.get_segment_position (Binary64.start_point L direction)
                direction L 0 segments_per_lane in
   let r := Binary64.V2.r_used pos receptor in
   let Q := Binary64.V2.Q 100 L in
   let percent := QArith_base.Qmake 1 100 in
   pos = (0, 33.525) /\
   Binary64.within percent (QArith_base.Qmake 27778 1000000000000)
     (Binary64.V2.emission_per_m 100) = true /\
   Binary64.within percent (QArith_base.Qmake 20694 100000000000) Q = true /\
   r = 33.525 /\
   Binary64.within percent (QArith_base.Qmake 12347 1000000000000)
     (Binary64.V2.C_i Q r) = true /\
   Binary64.within percent (QArith_base.Qmake 12347 1000)
     (Binary64.V2.C_i_ug Q r) = true /\
   Binary64.within percent (QArith_base.Qmake 12347 1000000000000)
     (10 * Q / (Binary64.BetterDisper.U * Binary64.BetterDisper.H_wc
                * (0.1 * r))) = true)%float.
Proof.
  split.
  - split; [reflexivity|]. split; [reflexivity|].
    intros direction L receptor pos r Q.
    assert (Hpos : pos = (0, 33.525)%R).
    { unfold pos, Exact.get_segment_position, Exact.start_point, Exact.vadd,
        Exact.vscale, Exact.sscale, direction, L. simpl. f_equal; lra. }
    assert (Hr : r = 33.525%R).
    { unfold r. rewrite Hpos. unfold Exact.vsub, receptor. simpl.
      replace (0 - 0)%R with 0%R by lra.
      replace (33.525 - 0)%R with 33.525%R by lra.
      apply norm_vertical. lra. }
    assert (Hused : Exact.V2.r_used r = 33.525%R).
    { rewrite Hr. unfold Exact.V2.r_used. case_decide; lra. }
    assert (HQ : Q = (100 * 1e-6 / 3600 * (74.5 / 10))%R).
    { unfold Q, Exact.V2.Q, Exact.V2.emission_per_m, L, segments_per_lane.
      simpl. lra. }
    repeat split.
    + exact Hpos.
    + unfold Exact.V2.emission_per_m. apply Rabs_le. lra.
    + rewrite HQ. apply Rabs_le. lra.
    + exact Hr.
    + exact Hused.
    + rewrite Hpos. apply north_segment_0_downwind.
    + rewrite Hused, HQ. unfold Exact.V2.C_i. apply Rabs_le. lra.
    + rewrite Hused, HQ. unfold Exact.V2.C_i_ug, Exact.V2.C_i.
      apply Rabs_le. lra.
    + unfold Exact.BetterDisper.dist_used, Exact.BetterDisper.C_i,
        Exact.V2.C_i.
      rewrite Hused, Hr. case_decide; [lra|]. f_equal. lra.
  - vm_compute. repeat split.
Qed.

End Scenario.

(** * The aggregation on binary64 columns *)

Section Binary64AggregatorFacts.
Import Floats Binary64.
#[local] Set Warnings "-inexact-float".
#[local] Open Scope float_scope.
Context {Row K : Type} `{EqDecision K}.
Variable acc : accumulator.
Variable key : Row -> option K.
Variable value : Row -> float.

#[local] Abbreviation step64 :=
  (fun (table : list (K * state acc)) (r : Row) =>
     match key r with
     | Some k => accumulate acc k (value r) table
     | None => table
     end).

Lemma keys_accumulate64 (k : K) (v : float) (table : list (K * state acc)) :
  (accumulate acc k v table).*1 =
  if decide (k ∈ table.*1) then table.*1 else table.*1 ++ [k].
Proof.
  induction table as [|[k0 s0] rest IH]; csimpl.
  - destruct (decide (k ∈ [])) as [Hin|_]; [|reflexivity].
    by apply elem_of_nil in Hin.
  - destruct (decide (k = k0)) as [->|Hne]; csimpl.
    + rewrite decide_True by apply list_elem_of_here. reflexivity.
    + rewrite IH. destruct (decide (k ∈ rest.*1)) as [Hin|Hnin].
      * rewrite decide_True by (by apply list_elem_of_further). reflexivity.
      * rewrite decide_False; [reflexivity|].
        intros Hin. apply elem_of_cons in Hin as [?|?]; congruence.
Qed.

Lemma keys_fold64 (rows : list Row) (table : list (K * state acc)) (k : K) :
  k ∈ (fold_left step64 rows table).*1 <->
  k ∈ table.*1 \/ exists r, r ∈ rows /\ key r = Some k.
Proof.
  revert table. induction rows as [|r rows IH]; intros table; simpl fold_left.
  - split; [auto|]. intros [?|(r & Hr & _)]; [done|].
    by apply elem_of_nil in Hr.
  - rewrite IH. destruct (key r) as [k'|] eqn:Hk.
    + rewrite keys_accumulate64. split.
      * intros [Hin|(r' & Hr' & Hk')].
        -- case_decide; [by left|].
           apply elem_of_app in Hin as [?|Hin]; [by left|].
           apply list_elem_of_singleton in Hin as ->.
           right. exists r. split; [apply list_elem_of_here | done].
        -- right. exists r'. split; [by apply list_elem_of_further | done].
      * intros [Hin|(r' & Hr' & Hk')].
        -- left. case_decide; [done|]. apply elem_of_app. by left.
        -- apply elem_of_cons in Hr' as [->|Hr'].
           ++ left. rewrite Hk in Hk'. injection Hk' as ->.
              case_decide; [done|]. apply elem_of_app. right.
              by apply list_elem_of_singleton.
           ++ right. by exists r'.
    + split.
      * intros [?|(r' & Hr' & Hk')]; [by left|].
        right. exists r'. split; [by apply list_elem_of_further | done].
      * intros [?|(r' & Hr' & Hk')]; [by left|].
        apply elem_of_cons in Hr' as [->|Hr']; [congruence|].
        right. by exists r'.
Qed.

Lemma NoDup_keys_fold64 (rows : list Row) (table : list (K * state acc)) :
  NoDup table.*1 -> NoDup (fold_left step64 rows table).*1.
Proof.
  revert table. induction rows as [|r rows IH]; intros table Hnd; simpl.
  - exact Hnd.
  - apply IH. destruct (key r) as [k|]; [|exact Hnd].
    rewrite keys_accumulate64. case_decide as Hin; [exact Hnd|].
    apply NoDup_app. split; [exact Hnd|]. split.
    + intros x Hx Hx'. apply list_elem_of_singleton in Hx'. congruence.
    + apply NoDup_singleton.
Qed.

Lemma keys_groupby_sum64 (rows : list Row) :
  (groupby_sum acc key value rows).*1 = (running acc key value rows).*1.
Proof.
  unfold groupby_sum. rewrite <- list_fmap_compose. reflexivity.
Qed.

(** the keys of the table are the keys that occur in the rows *)
Lemma elem_of_keys64 (rows : list Row) (k : K) :
  k ∈ (groupby_sum acc key value rows).*1 <->
  exists r, r ∈ rows /\ key r = Some k.
Proof.
  rewrite keys_groupby_sum64. unfold running. rewrite keys_fold64. split.
  - intros [Hin|?]; [by apply elem_of_nil in Hin | done].
  - auto.
Qed.

Lemma NoDup_keys64 (rows : list Row) :
  NoDup (groupby_sum acc key value rows).*1.
Proof.
  rewrite keys_groupby_sum64. apply NoDup_keys_fold64, NoDup_nil_2.
Qed.

Lemma running_of_accumulate (k k' : K) (v : float)
    (table : list (K * state acc)) :
  running_of acc k (accumulate acc k' v table) =
  if decide (k = k')
  then Some (add_value acc
               (default (init acc) (running_of acc k table)) v)
  else running_of acc k table.
Proof.
  induction table as [|[k0 s0] rest IH]; simpl.
  - repeat case_decide; simpl; congruence.
  - destruct (decide (k' = k0)) as [->|Hne]; simpl.
    + repeat case_decide; simpl; congruence.
    + rewrite IH. repeat case_decide; simpl; congruence.
Qed.

Lemma group_values_cons (k : K) (r : Row) (rows : list Row) :
  group_values key value k (r :: rows) =
  if decide (key r = Some k) then value r :: group_values key value k rows
  else group_values key value k rows.
Proof.
  unfold group_values.
  rewrite (filter_cons (fun r => key r = Some k) r rows).
  destruct (decide (key r = Some k)); reflexivity.
Qed.

(** the running sum of a key is the sum of its values in row order *)
Lemma running_of_fold (k : K) (rows : list Row)
    (table : list (K * state acc)) :
  running_of acc k (fold_left step64 rows table) =
  match group_values key value k rows with
  | [] => running_of acc k table
  | vs =>
      Some (fold_left (add_value acc) vs
              (default (init acc) (running_of acc k table)))
  end.
Proof.
  revert table. induction rows as [|r rows IH]; intros table;
    [reflexivity|].
  simpl fold_left. rewrite IH, group_values_cons.
  destruct (key r) as [k'|] eqn:Hk.
  - rewrite running_of_accumulate.
    destruct (decide (k = k')) as [->|Hne].
    + rewrite decide_True by reflexivity.
      destruct (group_values key value k' rows); reflexivity.
    + rewrite decide_False by congruence. reflexivity.
  - rewrite decide_False by discriminate. reflexivity.
Qed.

Lemma total_finish (k : K) (table : list (K * state acc)) :
  total k (map (fun e => (e.1, finish acc e.2)) table) =
  finish acc <$> running_of acc k table.
Proof.
  induction table as [|[k0 s0] rest IH]; [reflexivity|]. simpl.
  destruct (decide (k = k0)); [reflexivity | exact IH].
Qed.

(** the total of a key is the sum of its group, if it has one *)
Lemma total_groupby_sum64 (k : K) (rows : list Row) :
  total k (groupby_sum acc key value rows) =
  match group_values key value k rows with
  | [] => None
  | _ => Some (group_sum acc key value k rows)
  end.
Proof.
  unfold groupby_sum, running, group_sum.
  rewrite total_finish, running_of_fold.
  destruct (group_values key value k rows); reflexivity.
Qed.

Lemma group_values_nil (k : K) (rows : list Row) :
  group_values key value k rows = [] <->
  ~ exists r, r ∈ rows /\ key r = Some k.
Proof.
  induction rows as [|r rows IH]; [split; [|done]|].
  - intros _ (r & Hr & _). by apply elem_of_nil in Hr.
  - rewrite group_values_cons.
    destruct (decide (key r = Some k)) as [Hk|Hk].
    + split; [discriminate|]. intros Hno. exfalso. apply Hno.
      exists r. split; [apply list_elem_of_here | exact Hk].
    + rewrite IH. split.
      * intros Hno (r' & Hr' & Hk').
        apply elem_of_cons in Hr' as [->|Hr']; [done|].
        apply Hno. by exists r'.
      * intros Hno (r' & Hr' & Hk'). apply Hno. exists r'.
        split; [by apply list_elem_of_further | done].
Qed.

Lemma group_values_ex (k : K) (rows : list Row) :
  group_values key value k rows <> [] ->
  exists r, r ∈ rows /\ key r = Some k.
Proof.
  induction rows as [|r rows IH]; [done|].
  rewrite group_values_cons.
  destruct (decide (key r = Some k)) as [Hk|Hk].
  - intros _. exists r. split; [apply list_elem_of_here | exact Hk].
  - intros Hne. destruct (IH Hne) as (r' & Hr' & Hk').
    exists r'. split; [by apply list_elem_of_further | done].
Qed.

Lemma elem_of_total64 (table : list (K * float)) (k : K) (s : float) :
  NoDup table.*1 -> (k, s) ∈ table <-> total k table = Some s.
Proof.
  induction table as [|[k0 s0] rest IH]; csimpl; intros Hnd.
  - split; [intros Hin; by apply elem_of_nil in Hin | discriminate].
  - apply NoDup_cons in Hnd as [Hnin Hnd].
    rewrite elem_of_cons. case_decide as Heq.
    + subst k0. split.
      * intros [Hhd|Htl]; [congruence|].
        exfalso. apply Hnin. apply list_elem_of_fmap.
        exists (k, s). split; [reflexivity | exact Htl].
      * intros [= ->]. left. reflexivity.
    + rewrite <- (IH Hnd). split.
      * intros [Hhd|Htl]; [congruence | exact Htl].
      * intros Htl. right. exact Htl.
Qed.

(** a NaN among the values changes no sum *)
Lemma fold_add_value_skip_nan (vs : list float) (s : state acc) :
  fold_left (add_value acc) vs s =
  fold_left (add acc) (List.filter (fun v => negb (is_nan v)) vs) s.
Proof.
  revert s. induction vs as [|v vs IH]; intros s; [reflexivity|].
  cbn [fold_left List.filter]. rewrite IH. unfold add_value.
  destruct (is_nan v); reflexivity.
Qed.

(** C6, as it holds: under a permutation of the contributions the keys of
    the aggregated table stay the same, and the total of a key stays the
    same whenever the contributions of that key come in the same order
    in both streams, however they are interleaved with those of other
    keys; whether the aggregation raises KeyError (no contribution at
    all) does not depend on the order either.  This holds of every way
    of adding the values up in row order, the plain and the Kahan
    summation among them. *)
Theorem C6_aggregation_order (rows1 rows2 : list Row)
    (Hperm : rows1 ≡ₚ rows2) :
  let t1 := groupby_sum acc key value rows1 in
  let t2 := groupby_sum acc key value rows2 in
  t1.*1 ≡ₚ t2.*1 /\
  (forall k,
     group_values key value k rows1 = group_values key value k rows2 ->
     total k t1 = total k t2) /\
  (dataframe_groupby_sum acc key value rows1 = inl KeyError <->
   dataframe_groupby_sum acc key value rows2 = inl KeyError).
Proof.
  intros t1 t2. split; [|split].
  - apply NoDup_Permutation; [apply NoDup_keys64 | apply NoDup_keys64 |].
    intros k. unfold t1, t2. rewrite !elem_of_keys64.
    split; intros (r & Hr & Hk); exists r; split; try done.
    + by rewrite <- Hperm.
    + by rewrite Hperm.
  - intros k Hgroup. unfold t1, t2. rewrite !total_groupby_sum64.
    unfold group_sum. rewrite Hgroup. reflexivity.
  - unfold dataframe_groupby_sum.
    destruct rows1 as [|r1 rows1]; destruct rows2 as [|r2 rows2];
      try done.
    + by apply Permutation_nil_cons in Hperm.
    + symmetry in Hperm. by apply Permutation_nil_cons in Hperm.
Qed.

(** X1: df.groupby(keys)[column].sum() on the rows of a result list: an
    empty list raises KeyError (the DataFrame has no columns); otherwise
    the table has exactly one entry for each distinct key that occurs in
    the rows, the entry of a key holds the values of the rows of that key
    added up in row order, and a value that is NaN is skipped, the key
    keeping its entry. *)
Theorem dataframe_groupby_sum_entries (rows : list Row) :
  let table := groupby_sum acc key value rows in
  (rows = [] -> dataframe_groupby_sum acc key value rows = inl KeyError) /\
  (rows <> [] -> dataframe_groupby_sum acc key value rows = inr table) /\
  NoDup table.*1 /\
  (forall k, k ∈ table.*1 <-> exists r, r ∈ rows /\ key r = Some k) /\
  (forall k s,
     (k, s) ∈ table <->
     (exists r, r ∈ rows /\ key r = Some k) /\
     s = group_sum acc key value k rows) /\
  (forall k,
     group_sum acc key value k rows =
     finish acc
       (fold_left (add acc)
          (List.filter (fun v => negb (is_nan v))
                       (group_values key value k rows))
          (init acc))).
Proof.
  intros table. split_and!.
  - intros ->. reflexivity.
  - intros Hne. destruct rows; [done | reflexivity].
  - apply NoDup_keys64.
  - intros k. apply elem_of_keys64.
  - intros k s. rewrite (elem_of_total64 table k s (NoDup_keys64 rows)).
    unfold table. rewrite total_groupby_sum64.
    destruct (group_values key value k rows) as [|v vs] eqn:Hvs.
    + apply group_values_nil in Hvs. split; [discriminate|].
      intros [Hex _]. done.
    + assert (Hex : exists r, r ∈ rows /\ key r = Some k).
      { apply group_values_ex. rewrite Hvs. discriminate. }
      split.
      * intros [= <-]. split; [exact Hex | reflexivity].
      * intros [_ ->]. reflexivity.
  - intros k. unfold group_sum. f_equal. apply fold_add_value_skip_nan.
Qed.

End Binary64AggregatorFacts.

Section Binary64AggregatorRuns.
Import Floats Binary64.
#[local] Set Warnings "-inexact-float".
#[local] Open Scope float_scope.

(** C6 at three contributions of two pollutants: the contributions of CO
    keep their order, the one of NOx moves *)
Lemma C6_aggregation_order_witness :
  let key := fun r : string * float => Some r.1 in
  let rows1 := [("CO", 1.8); ("NOx", 2.0); ("CO", 7.3)] in
  let rows2 := [("NOx", 2.0); ("CO", 1.8); ("CO", 7.3)] in
  (groupby_sum kahan_sum key snd rows1).*1 ≡ₚ
  (groupby_sum kahan_sum key snd rows2).*1.
Proof.
  intros key rows1 rows2.
  exact (proj1 (C6_aggregation_order kahan_sum key snd rows1 rows2
                  (perm_swap _ _ _))).
Defined.

(** C6 does not hold of the totals: the three contributions 1.8, 7.3 and
    9.8 of one key add up to 18.9 in this order and to 18.900000000000002
    with the last two exchanged, with the plain summation and with the
    Kahan summation alike. *)
Lemma C6_counterexample :
  let key := fun r : string * float => Some r.1 in
  let rows1 := [("CO", 1.8); ("CO", 7.3); ("CO", 9.8)] in
  let rows2 := [("CO", 1.8); ("CO", 9.8); ("CO", 7.3)] in
  rows1 ≡ₚ rows2 /\
  total "CO" (groupby_sum plain_sum key snd rows1) = Some 18.9 /\
  total "CO" (groupby_sum plain_sum key snd rows2) = Some 18.900000000000002 /\
  total "CO" (groupby_sum kahan_sum key snd rows1) = Some 18.9 /\
  total "CO" (groupby_sum kahan_sum key snd rows2) = Some 18.900000000000002 /\
  (18.9 =? 18.900000000000002) = false.
Proof.
  intros key rows1 rows2. split.
  - unfold rows1, rows2. apply perm_skip, perm_swap.
  - vm_compute. repeat split.
Qed.

End Binary64AggregatorRuns.

(** * The two segment decompositions in binary64 *)

Section Binary64Decompositions.
Import Floats Binary64.
#[local] Set Warnings "-inexact-float".
#[local] Open Scope float_scope.






End Binary64Decompositions.

(** * The keys of an aggregation *)

Section GroupKeyFacts.
Import Exact.
#[local] Open Scope R_scope.
Context {Row K : Type} `{EqDecision K}.
Variable key : Row -> option K.
Variable value : Row -> R.

#[local] Abbreviation step :=
  (fun (acc : list (K * R)) (r : Row) =>
     match key r with
     | Some k => accumulate k (value r) acc
     | None => acc
     end).

Lemma keys_fold (rows : list Row) (acc : list (K * R)) (k : K) :
  k ∈ (fold_left step rows acc).*1 <->
  k ∈ acc.*1 \/ exists r, r ∈ rows /\ key r = Some k.
Proof.
  revert acc. induction rows as [|r rows IH]; intros acc; simpl fold_left.
  - split; [auto|]. intros [?|(r & Hr & _)]; [done|].
    by apply elem_of_nil in Hr.
  - rewrite IH. destruct (key r) as [k'|] eqn:Hk.
    + rewrite keys_accumulate. split.
      * intros [Hin|(r' & Hr' & Hk')].
        -- case_decide; [by left|].
           apply elem_of_app in Hin as [?|Hin]; [by left|].
           apply list_elem_of_singleton in Hin as ->.
           right. exists r. split; [apply list_elem_of_here | done].
        -- right. exists r'. split; [by apply list_elem_of_further | done].
      * intros [Hin|(r' & Hr' & Hk')].
        -- left. case_decide; [done|]. apply elem_of_app. by left.
        -- apply elem_of_cons in Hr' as [->|Hr'].
           ++ left. rewrite Hk in Hk'. injection Hk' as ->.
              case_decide; [done|]. apply elem_of_app. right.
              by apply list_elem_of_singleton.
           ++ right. by exists r'.
    + split.
      * intros [?|(r' & Hr' & Hk')]; [by left|].
        right. exists r'. split; [by apply list_elem_of_further | done].
      * intros [?|(r' & Hr' & Hk')]; [by left|].
        apply elem_of_cons in Hr' as [->|Hr']; [congruence|].
        right. by exists r'.
Qed.

End GroupKeyFacts.

(** * Text extraction *)

Section ExtractFacts.
Import Exact.
#[local] Open Scope R_scope.

Lemma prefix_occurs (a s : string) :
  String.prefix a s = true <-> exists post, s = a +:+ post.
Proof.
  revert s. induction a as [|c a IH]; intros s.
  - split; [intros _; exists s; reflexivity | by destruct s].
  - destruct s as [|c' s]; simpl.
    + split; [discriminate | intros [post Hpost]; discriminate].
    + destruct (Ascii.ascii_dec c c') as [->|Hne].
      * rewrite IH. split; intros [post Hpost]; exists post.
        -- by rewrite Hpost.
        -- by injection Hpost.
      * split; [discriminate|]. intros [post Hpost]. by injection Hpost.
Qed.

Lemma occurs_in_cons (a : string) (c : Ascii.ascii) (s : string) :
  occurs_in a (String c s) <->
  (exists post, String c s = a +:+ post) \/ occurs_in a s.
Proof.
  unfold occurs_in. split.
  - intros (pre & post & Heq). destruct pre as [|c' pre].
    + left. by exists post.
    + right. exists pre, post. by injection Heq.
  - intros [[post Heq]|(pre & post & Heq)].
    + by exists "", post.
    + exists (String c pre), post. by rewrite Heq.
Qed.

Lemma find_prefix_none (alternatives : list string) (s : string) :
  List.find (fun a => String.prefix a s) alternatives = None <->
  forall a, a ∈ alternatives -> ~ exists post, s = a +:+ post.
Proof.
  induction alternatives as [|b l IH]; simpl.
  - split; [intros _ a Ha; by apply elem_of_nil in Ha | done].
  - destruct (String.prefix b s) eqn:Hb.
    + split; [discriminate|]. intros Hall. exfalso.
      apply (Hall b); [apply list_elem_of_here | by apply prefix_occurs].
    + rewrite IH. split.
      * intros Hall a Ha. apply elem_of_cons in Ha as [->|Ha]; [|by apply Hall].
        rewrite <- prefix_occurs. by rewrite Hb.
      * intros Hall a Ha. apply Hall. by apply list_elem_of_further.
Qed.

Lemma find_prefix_some (alternatives : list string) (s a : string) :
  List.find (fun a => String.prefix a s) alternatives = Some a ->
  a ∈ alternatives /\ exists post, s = a +:+ post.
Proof.
  intros Hfind. apply List.find_some in Hfind as [Hin Hpre].
  split; [by apply list_elem_of_In | by apply prefix_occurs].
Qed.

Lemma str_extract_unfold (alternatives : list string) (s : string) :
  str_extract alternatives s =
  match List.find (fun a => String.prefix a s) alternatives with
  | Some a => Some a
  | None =>
      match s with
      | EmptyString => None
      | String _ s' => str_extract alternatives s'
      end
  end.
Proof. destruct s; reflexivity. Qed.

(** X3: Series.str.extract with an alternation of literals returns an
    alternative that occurs in the text, and returns nothing exactly when
    no alternative occurs anywhere in the text. *)
Theorem str_extract_occurs (alternatives : list string) (s : string) :
  (forall a, str_extract alternatives s = Some a ->
             a ∈ alternatives /\ occurs_in a s) /\
  (str_extract alternatives s = None <->
   forall a, a ∈ alternatives -> ~ occurs_in a s).
Proof.
  induction s as [|c s [IHsome IHnone]].
  - rewrite str_extract_unfold.
    destruct (List.find (fun a => String.prefix a "") alternatives) as [b|]
      eqn:Hfind.
    + apply find_prefix_some in Hfind as [Hin [post Hpost]]. split.
      * intros a [= <-]. split; [done|]. by exists "", post.
      * split; [discriminate|]. intros Hall. exfalso.
        apply (Hall b Hin). by exists "", post.
    + split; [discriminate|]. split; [|done]. intros _ a Ha (pre & post & Heq).
      destruct pre; [|discriminate].
      rewrite find_prefix_none in Hfind. apply (Hfind a Ha). by exists post.
  - rewrite str_extract_unfold.
    destruct (List.find (fun a => String.prefix a (String c s)) alternatives)
      as [b|] eqn:Hfind.
    + apply find_prefix_some in Hfind as [Hin [post Hpost]]. split.
      * intros a [= <-]. split; [done|]. by exists "", post.
      * split; [discriminate|]. intros Hall. exfalso.
        apply (Hall b Hin). by exists "", post.
    + rewrite find_prefix_none in Hfind. split.
      * intros a Ha. destruct (IHsome a Ha) as [Hin Hocc].
        split; [done|]. apply occurs_in_cons. by right.
      * rewrite IHnone. split.
        -- intros Hall a Ha Hocc. apply occurs_in_cons in Hocc as [Hp|Hocc].
           ++ by apply (Hfind a Ha).
           ++ by apply (Hall a Ha).
        -- intros Hall a Ha Hocc. apply (Hall a Ha).
           apply occurs_in_cons. by right.
Qed.

End ExtractFacts.

(** * Further properties of the loops over the emission file *)

Section LoopFacts.
Import Floats Binary64.
Context {Row Event A : Type}.
Implicit Types (body : A -> trace Row Event) (l : list A).

Lemma for_each_raised_None body l :
  (forall a, a ∈ l -> raised (body a) = None) ->
  raised (for_each l body) = None.
Proof.
  induction l as [|a l IH]; intros Hall; [reflexivity|].
  rewrite for_each_cons. unfold andthen.
  rewrite (Hall a) by apply list_elem_of_here. simpl.
  apply IH. intros a' Ha'. apply Hall. by apply list_elem_of_further.
Qed.

Lemma for_each_raised_Some body l (x : exn) :
  raised (for_each l body) = Some x ->
  exists a, a ∈ l /\ raised (body a) = Some x.
Proof.
  induction l as [|a l IH]; [discriminate|].
  rewrite for_each_cons. unfold andthen.
  destruct (raised (body a)) as [x'|] eqn:Hr.
  - rewrite Hr. intros [= ->]. exists a.
    split; [apply list_elem_of_here | done].
  - simpl. intros Hx. destruct (IH Hx) as (a' & Ha' & Hr').
    exists a'. split; [by apply list_elem_of_further | done].
Qed.

Lemma for_each_not_raised body l (a : A) :
  raised (for_each l body) = None -> a ∈ l -> raised (body a) = None.
Proof.
  induction l as [|a' l IH]; intros Hr Ha; [by apply elem_of_nil in Ha|].
  rewrite for_each_cons in Hr.
  apply andthen_not_raised in Hr as (Hr1 & Hr2 & _).
  apply elem_of_cons in Ha as [->|Ha]; auto.
Qed.

Lemma for_each_results_Forall (P : Row -> Prop) body l :
  (forall a, a ∈ l -> Forall P (results (body a))) ->
  Forall P (results (for_each l body)).
Proof.
  induction l as [|a l IH]; intros Hall; [constructor|].
  rewrite for_each_cons. unfold andthen.
  destruct (raised (body a)); [apply Hall, list_elem_of_here|]. simpl.
  apply Forall_app. split; [apply Hall, list_elem_of_here|].
  apply IH. intros a' Ha'. apply Hall. by apply list_elem_of_further.
Qed.

(** a count that adds up over the statements of a run that is not
    aborted adds up over the iterations of a loop *)
Lemma for_each_count (m : trace Row Event -> nat) (c : A -> nat) body l :
  m pass = 0 ->
  (forall t1 t2, raised t1 = None -> m (andthen t1 t2) = m t1 + m t2) ->
  raised (for_each l body) = None ->
  (forall a, a ∈ l -> raised (body a) = None -> m (body a) = c a) ->
  m (for_each l body) = sum_list_with c l.
Proof.
  intros Hpass Hadd. induction l as [|a l IH]; intros Hr Hc; [exact Hpass|].
  rewrite for_each_cons in Hr |- *.
  pose proof (andthen_not_raised _ _ Hr) as (Hr1 & Hr2 & _).
  rewrite (Hadd _ _ Hr1). simpl.
  rewrite (Hc a (list_elem_of_here _ _) Hr1). f_equal.
  apply (IH Hr2). intros a' Ha'. apply Hc. by apply list_elem_of_further.
Qed.

Lemma sum_list_with_const (c : nat) l :
  sum_list_with (fun _ : A => c) l = c * length l.
Proof. induction l as [|a l IH]; simpl; lia. Qed.

Lemma length_results_andthen (t1 t2 : trace Row Event) :
  raised t1 = None ->
  length (results (andthen t1 t2)) =
  length (results t1) + length (results t2).
Proof.
  intros Hr. unfold andthen. rewrite Hr. simpl. apply length_app.
Qed.

Lemma andthen_print_l (e : Event) (t : trace Row Event) :
  andthen (print e) t =
  {| results := results t; stdout := e :: stdout t; raised := raised t |}.
Proof. reflexivity. Qed.

End LoopFacts.

Section FileFacts.
Import Floats Binary64.

Lemma for_each_results_map {Row Event A B : Type} (f : Row -> B)
    (g : A -> list B) (body : A -> trace Row Event) (l : list A) :
  raised (for_each l body) = None ->
  (forall a, a ∈ l -> raised (body a) = None ->
             map f (results (body a)) = g a) ->
  map f (results (for_each l body)) = flat_map g l.
Proof.
  induction l as [|a l IH]; intros Hr Hg; [reflexivity|].
  rewrite for_each_cons in Hr |- *.
  pose proof (andthen_not_raised _ _ Hr) as (Hr1 & Hr2 & -> & _).
  rewrite map_app. simpl flat_map.
  rewrite (Hg a (list_elem_of_here _ _) Hr1). f_equal.
  apply (IH Hr2). intros a' Ha'. apply Hg. by apply list_elem_of_further.
Qed.

Lemma flat_map_filter {A B : Type} (f : A -> bool) (h : A -> B) (l : list A) :
  flat_map (fun a => if f a then [h a] else []) l = map h (List.filter f l).
Proof.
  induction l as [|a l IH]; [reflexivity|]. simpl.
  destruct (f a); simpl; by rewrite IH.
Qed.

(** the lane elements under the edges that [known] selects add up *)
Lemma sum_known_lanes (known : edge_el -> bool) (n : nat) (es : list edge_el) :
  sum_list_with (fun e => if known e then n * length (lanes e) else 0) es =
  n * length (flat_map lanes (List.filter known es)).
Proof.
  induction es as [|e es IH]; simpl; [lia|].
  rewrite IH. destruct (known e); simpl; [|lia].
  rewrite length_app. lia.
Qed.

Lemma sum_intervals (known : edge_el -> bool) (n : nat) (root : root_el) :
  sum_list_with
    (fun interval =>
       n * length (flat_map lanes (List.filter known (edges interval)))) root =
  n * length (flat_map lanes (List.filter known (all_edges root))).
Proof.
  unfold all_edges. induction root as [|interval root IH]; simpl; [lia|].
  rewrite IH, List.filter_app, flat_map_app, length_app. lia.
Qed.

Lemma get_float_default_None (l : lane_el) (name : string) :
  get_float_default l name = None <-> attrib l !! name = Some Unparseable.
Proof.
  unfold get_float_default.
  destruct (attrib l !! name) as [[x|]|]; split; congruence.
Qed.

Lemma elem_of_all_edges (e : edge_el) (root : root_el) :
  e ∈ all_edges root <-> exists interval, interval ∈ root /\ e ∈ edges interval.
Proof.
  unfold all_edges. rewrite list_elem_of_In, in_flat_map.
  by setoid_rewrite list_elem_of_In.
Qed.

End FileFacts.

Section BetterDisperFacts.
Import Floats Binary64.
#[local] Set Warnings "-inexact-float".
#[local] Open Scope float_scope.
Variables receptor wind_vec : vec.
Variable angle_tolerance : float.
Variable acos_finite : float -> float.

#[local] Abbreviation bd_segment :=
  (BetterDisper.segment receptor wind_vec angle_tolerance acos_finite).
#[local] Abbreviation bd_lane :=
  (BetterDisper.lane receptor wind_vec angle_tolerance acos_finite).
#[local] Abbreviation bd_edge' :=
  (BetterDisper.edge receptor wind_vec angle_tolerance acos_finite).
#[local] Abbreviation bd_main_loop' :=
  (BetterDisper.main_loop receptor wind_vec angle_tolerance acos_finite).
#[local] Abbreviation bd_run' :=
  (BetterDisper.run receptor wind_vec angle_tolerance acos_finite).
#[local] Abbreviation known := (fun e => negb (BetterDisper.unknown e)).

(** rows appended plus segments rejected by the angle filter *)
#[local] Abbreviation outcomes :=
  (fun t : trace BetterDisper.row BetterDisper.event =>
     (length (results t) +
      length (BetterDisper.filtered_segments (stdout t)))%nat).

Lemma outcomes_andthen (t1 t2 : trace BetterDisper.row BetterDisper.event) :
  raised t1 = None ->
  outcomes (andthen t1 t2) = (outcomes t1 + outcomes t2)%nat.
Proof.
  intros Hr. unfold andthen. rewrite Hr. simpl.
  unfold BetterDisper.filtered_segments.
  rewrite omap_app, !length_app. lia.
Qed.

Lemma registry_tables_complete :
  map_Forall
    (fun _ name =>
       (exists side, BetterDisper.LANE_TO_SIDE !! name = Some side /\
                     side ∈ ["North"; "South"; "East"; "West"]) /\
       is_Some (BetterDisper.LANE_INFO !! name))
    BetterDisper.EDGE_TO_LANE.
Proof.
  intros edge_id name Hname.
  assert (Hin : name ∈ ["North Out"; "East In"; "West Out"; "East Out";
                        "North In"; "South Out"; "South In"; "West In"]).
  { revert edge_id name Hname. apply (bool_decide_unpack _). vm_compute.
    exact I. }
  repeat (apply elem_of_cons in Hin as [->|Hin]);
    [..|by apply elem_of_nil in Hin];
    (split; [eexists; split; [reflexivity|set_solver] | by eexists]).
Qed.

Lemma bd_segment_raised side pollutant length direction start_point e i :
  raised (bd_segment side pollutant length direction start_point e i) = None.
Proof.
  unfold BetterDisper.segment. destruct (angle_tolerance <? _); reflexivity.
Qed.

Lemma bd_segment_outcomes side pollutant length direction start_point e i :
  outcomes (bd_segment side pollutant length direction start_point e i) = 1%nat.
Proof.
  unfold BetterDisper.segment. destruct (angle_tolerance <? _); reflexivity.
Qed.

Lemma bd_lane_raised side length direction start_point (l : lane_el) (x : exn) :
  raised (bd_lane side length direction start_point l) = Some x ->
  x = ValueError /\
  exists p, p ∈ POLLUTANTS /\
            attrib l !! (p +:+ "_normed") = Some Unparseable.
Proof.
  unfold BetterDisper.lane. intros Hx.
  apply for_each_raised_Some in Hx as (p & Hp & Hx).
  destruct (get_float_default l (p +:+ "_normed")) as [v|] eqn:Hget.
  - rewrite for_each_raised_None in Hx; [discriminate|].
    intros i _. apply bd_segment_raised.
  - injection Hx as <-. split; [reflexivity|]. exists p.
    split; [exact Hp | by apply get_float_default_None].
Qed.

Lemma bd_lane_outcomes side length direction start_point (l : lane_el) :
  raised (bd_lane side length direction start_point l) = None ->
  outcomes (bd_lane side length direction start_point l) = 40%nat.
Proof.
  unfold BetterDisper.lane. intros Hr.
  rewrite (for_each_count outcomes (fun _ => 10%nat));
    [reflexivity | reflexivity | exact outcomes_andthen | exact Hr |].
  intros p _ Hp.
  destruct (get_float_default l (p +:+ "_normed")) as [v|]; [|discriminate].
  rewrite (for_each_count outcomes (fun _ => 1%nat));
    [reflexivity | reflexivity | exact outcomes_andthen | exact Hp |].
  intros i _ _. apply bd_segment_outcomes.
Qed.

Lemma bd_edge_cases (e : edge_el) :
  (BetterDisper.unknown e = true /\
   bd_edge' e = print (BetterDisper.Warning_lane_name_not_found (id e))) \/
  (BetterDisper.unknown e = false /\
   exists side info,
     side ∈ ["North"; "South"; "East"; "West"] /\
     bd_edge' e =
     for_each (lanes e)
       (bd_lane side (BetterDisper.length info) (BetterDisper.dir info)
          (start_point (BetterDisper.length info) (BetterDisper.dir info)))).
Proof.
  destruct (BetterDisper.unknown e) eqn:Hu.
  - left. split; [reflexivity|]. by apply better_disper_edge_unknown.
  - right. split; [reflexivity|].
    unfold BetterDisper.edge. rewrite falsy_unknown, Hu.
    apply bool_decide_eq_false in Hu.
    destruct (BetterDisper.lane_name_of e) as [name|] eqn:Hname; [|done].
    unfold BetterDisper.lane_name_of in Hname.
    destruct (id e) as [edge_id|]; [|discriminate]. simpl in Hname.
    destruct (registry_tables_complete edge_id name Hname)
      as [(side & Hside & Hin) [info Hinfo]].
    simpl. rewrite Hside, Hinfo. by exists side, info.
Qed.

(** X6: a run of better_disper.py that is not aborted accounts for every
    segment: the rows it appends and the "angle exceeds tolerance" lines it
    prints are together 40 (4 pollutants times 10 segments) for each lane
    element of an edge of the registry. *)
Theorem better_disper_accounting (root : root_el)
    (Hrun : raised (bd_main_loop' root) = None) :
  (length (results (bd_main_loop' root)) +
   length (BetterDisper.filtered_segments (stdout (bd_main_loop' root))))%nat =
  (40 * length (flat_map lanes (List.filter known (all_edges root))))%nat.
Proof.
  rewrite <- sum_intervals. unfold BetterDisper.main_loop in Hrun |- *.
  apply (for_each_count outcomes);
    [reflexivity | exact outcomes_andthen | exact Hrun |].
  intros interval _ Hi. rewrite <- sum_known_lanes.
  apply (for_each_count outcomes);
    [reflexivity | exact outcomes_andthen | exact Hi |].
  intros e _ He.
  destruct (bd_edge_cases e) as [[Hu ->]|[Hu (side & info & _ & Heq)]];
    rewrite Hu; [reflexivity|]. simpl negb. cbv iota.
  rewrite Heq in He |- *. rewrite <- sum_list_with_const.
  apply (for_each_count outcomes);
    [reflexivity | exact outcomes_andthen | exact He |].
  intros l _ Hl. by apply bd_lane_outcomes.
Qed.

(** X7: better_disper.py never stops on a missing table key: every lane
    name of EDGE_TO_LANE is a key of LANE_TO_SIDE and of LANE_INFO.  It
    stops, with ValueError, exactly when some lane element under an edge
    of the registry has a "<pollutant>_normed" attribute that float()
    cannot parse; then neither closing message is printed. *)
Theorem better_disper_abort (root : root_el) :
  raised (bd_run' root) <> Some KeyError /\
  (raised (bd_run' root) = Some ValueError <->
   exists e l p,
     e ∈ all_edges root /\ BetterDisper.unknown e = false /\
     l ∈ lanes e /\ p ∈ POLLUTANTS /\
     attrib l !! (p +:+ "_normed") = Some Unparseable) /\
  (raised (bd_run' root) <> None ->
   (BetterDisper.Success_saved ∉ stdout (bd_run' root)) /\
   (BetterDisper.No_results_to_save ∉ stdout (bd_run' root))).
Proof.
  assert (Hsome : forall x, raised (bd_main_loop' root) = Some x ->
            x = ValueError /\
            exists e l p,
              e ∈ all_edges root /\ BetterDisper.unknown e = false /\
              l ∈ lanes e /\ p ∈ POLLUTANTS /\
              attrib l !! (p +:+ "_normed") = Some Unparseable).
  { intros x Hx. unfold BetterDisper.main_loop in Hx.
    apply for_each_raised_Some in Hx as (interval & Hi & Hx).
    apply for_each_raised_Some in Hx as (e & He & Hx).
    destruct (bd_edge_cases e) as [[Hu Heq]|[Hu (side & info & _ & Heq)]];
      rewrite Heq in Hx; [discriminate|].
    apply for_each_raised_Some in Hx as (l & Hl & Hx).
    apply bd_lane_raised in Hx as [-> (p & Hp & Hattr)].
    split; [reflexivity|]. exists e, l, p.
    repeat split; try done. apply elem_of_all_edges. by exists interval. }
  assert (Hstdout : forall ev,
            (ev = BetterDisper.Success_saved \/
             ev = BetterDisper.No_results_to_save) ->
            ev ∉ stdout (bd_main_loop' root)).
  { intros ev Hev. unfold BetterDisper.main_loop.
    assert (Hgen : forall {B : Type} (l : list B)
                     (body : B -> trace BetterDisper.row BetterDisper.event),
               (forall b, ev ∉ stdout (body b)) ->
               ev ∉ stdout (for_each l body)).
    { intros B l body Hb. induction l as [|b l IH]; [apply not_elem_of_nil|].
      rewrite for_each_cons. unfold andthen.
      destruct (raised (body b)); [apply Hb|]. simpl.
      rewrite elem_of_app. intros [?|?]; [by apply (Hb b) | done]. }
    apply Hgen. intros interval. apply Hgen. intros e.
    destruct (bd_edge_cases e) as [[Hu ->]|[Hu (side & info & _ & ->)]].
    - simpl. rewrite list_elem_of_singleton.
      destruct Hev as [-> | ->]; discriminate.
    - apply Hgen. intros l. unfold BetterDisper.lane. apply Hgen. intros p.
      destruct (get_float_default l _); [|apply not_elem_of_nil].
      apply Hgen. intros i. unfold BetterDisper.segment.
      destruct (angle_tolerance <? _); simpl;
        [|apply not_elem_of_nil].
      rewrite list_elem_of_singleton. destruct Hev as [-> | ->]; discriminate. }
  unfold BetterDisper.run. rewrite raised_andthen_print.
  split; [|split].
  - intros Hx. by destruct (Hsome _ Hx).
  - split; [intros Hx; by destruct (Hsome _ Hx)|].
    intros (e & l & p & He & Hu & Hl & Hp & Hattr).
    destruct (raised (bd_main_loop' root)) as [x|] eqn:Hx.
    + destruct (Hsome _ eq_refl) as [-> _]. reflexivity.
    + exfalso. apply elem_of_all_edges in He as (interval & Hi & He).
      unfold BetterDisper.main_loop in Hx.
      pose proof (for_each_not_raised _ _ _ Hx Hi) as Hx1.
      pose proof (for_each_not_raised _ _ _ Hx1 He) as Hx2.
      destruct (bd_edge_cases e) as [[Hu' _]|[_ (side & info & _ & Heq)]];
        [congruence|].
      rewrite Heq in Hx2.
      pose proof (for_each_not_raised _ _ _ Hx2 Hl) as Hx3.
      unfold BetterDisper.lane in Hx3.
      pose proof (for_each_not_raised _ _ _ Hx3 Hp) as Hx4.
      apply get_float_default_None in Hattr. cbv beta in Hx4.
      rewrite Hattr in Hx4.
      discriminate.
  - intros Hraised. unfold andthen.
    destruct (raised (bd_main_loop' root)) eqn:Hx; [|done].
    split; apply Hstdout; auto.
Qed.

(** X8: every row better_disper.py appends belongs to one of the four
    sides, one of the four pollutants and a segment index below 10; its
    distance does not compare equal to 0, so that C_i is never a division
    by a zero distance; its angle does not exceed the tolerance; and its
    concentration in ug/m3 is the one in kg/m3 times 1e9. *)
Theorem better_disper_rows (root : root_el) :
  Forall
    (fun r =>
       BetterDisper.side r ∈ ["North"; "South"; "East"; "West"] /\
       BetterDisper.pollutant r ∈ POLLUTANTS /\
       (BetterDisper.segment_index r < segments_per_lane)%nat /\
       (BetterDisper.distance_to_receptor_m r =? 0) = false /\
       (angle_tolerance <? BetterDisper.angle_deg r) = false /\
       BetterDisper.C_i_ug_per_m3 r = BetterDisper.C_i_kg_per_m3 r * 1e9)
    (results (bd_run' root)).
Proof.
  unfold BetterDisper.run. rewrite results_andthen_print.
  unfold BetterDisper.main_loop.
  apply for_each_results_Forall. intros interval _.
  apply for_each_results_Forall. intros e _.
  destruct (bd_edge_cases e) as [[_ ->]|[_ (side & info & Hside & ->)]];
    [constructor|].
  apply for_each_results_Forall. intros l _. unfold BetterDisper.lane.
  apply for_each_results_Forall. intros p Hp.
  destruct (get_float_default l _) as [v|]; [|constructor].
  apply for_each_results_Forall. intros i Hi.
  unfold BetterDisper.segment.
  destruct (angle_tolerance <? _) eqn:Hangle; [constructor|].
  apply Forall_singleton. simpl. split_and!; try done.
  - apply elem_of_seq in Hi. unfold segments_per_lane in *. lia.
  - destruct (norm _ =? 0) eqn:Hd; [reflexivity | exact Hd].
Qed.

(** the segments of a lane that the angle filter lets through *)
#[local] Abbreviation passing :=
  (fun (length : float) (direction start : vec) =>
     List.filter
       (fun i =>
          negb (angle_tolerance <?
                BetterDisper.angle_between acos_finite
                  (vsub receptor
                     (get_segment_position start direction length i
                        segments_per_lane))
                  wind_vec))
       (seq 0 segments_per_lane)).

(** X9: in better_disper.py the angle filter looks at the geometry only:
    a lane element that does not abort the run appends, for each of the
    four pollutants in turn, one row for each segment within the angle
    tolerance, the same segments for every pollutant and whatever the
    emission values are (a missing attribute counts as 0, the rows are
    appended all the same). *)
Theorem better_disper_lane_keys (side : string) (length : float)
    (direction start : vec) (l : lane_el)
    (Hrun : raised (bd_lane side length direction start l) = None) :
  map (fun r => (BetterDisper.pollutant r, BetterDisper.segment_index r))
      (results (bd_lane side length direction start l)) =
  flat_map (fun p => map (pair p) (passing length direction start))
           POLLUTANTS.
Proof.
  unfold BetterDisper.lane in Hrun |- *.
  apply for_each_results_map; [exact Hrun|]. intros p _ Hp.
  destruct (get_float_default l (p +:+ "_normed")) as [v|]; [|discriminate].
  rewrite <- flat_map_filter.
  apply for_each_results_map; [exact Hp|]. intros i _ _.
  unfold BetterDisper.segment.
  destruct (angle_tolerance <? _); reflexivity.
Qed.

End BetterDisperFacts.

Section BetterDisperRun.
Import Floats Binary64.
#[local] Set Warnings "-inexact-float".
#[local] Open Scope float_scope.

Lemma better_disper_accounting_witness :
  let root :=
    [ {| edges :=
           [ {| id := Some "237386421";
                lanes := [ {| attrib := {[ "CO_normed" := Numeric 100 ]} |} ] |};
             {| id := Some "junction";
                lanes := [ {| attrib := ∅ |} ] |} ] |} ] in
  let t :=
    BetterDisper.main_loop
      (-9, 10) (-1, 1.2246467991473532e-16) 45
      (fun _ => 0) root in
  (length (results t) +
   length (BetterDisper.filtered_segments (stdout t)))%nat =
  (40 * length
          (flat_map lanes
             (List.filter
                (fun e => negb (BetterDisper.unknown e))
                (all_edges root))))%nat.
Proof.
  intros root t.
  apply (better_disper_accounting
           (-9, 10) (-1, 1.2246467991473532e-16) 45
           (fun _ => 0) root).
  vm_compute. reflexivity.
Defined.

Lemma better_disper_lane_keys_witness :
  let l := {| attrib := ∅ |} in
  let t :=
    BetterDisper.lane (-9, 10) (-1, 1.2246467991473532e-16) 45 (fun _ => 0)
      "North" 74.5 (0, -1) (start_point 74.5 (0, -1)) l in
  map (fun r => (BetterDisper.pollutant r, BetterDisper.segment_index r))
      (results t) =
  flat_map
    (fun p =>
       map (pair p)
         (List.filter
            (fun i =>
               negb (45 <?
                     BetterDisper.angle_between (fun _ => 0)
                       (vsub (-9, 10)
                          (get_segment_position (start_point 74.5 (0, -1))
                             (0, -1) 74.5 i segments_per_lane))
                       (-1, 1.2246467991473532e-16)))
            (seq 0 segments_per_lane)))
    POLLUTANTS.
Proof.
  intros l t.
  apply (better_disper_lane_keys
           (-9, 10) (-1, 1.2246467991473532e-16) 45 (fun _ => 0)
           "North" 74.5 (0, -1) (start_point 74.5 (0, -1)) l).
  vm_compute. reflexivity.
Defined.

End BetterDisperRun.

(** * The loops of disper.py and disper_v3.py *)

Section DisperFacts.
Import Floats Binary64.
#[local] Set Warnings "-inexact-float".
#[local] Open Scope float_scope.

Lemma flat_map_all_edges {B : Type} (g : edge_el -> list B) (root : root_el) :
  flat_map (fun interval => flat_map g (edges interval)) root =
  flat_map g (all_edges root).
Proof.
  unfold all_edges. induction root as [|interval root IH]; [reflexivity|].
  simpl. rewrite IH, flat_map_app. reflexivity.
Qed.

Lemma disper_tables_complete :
  map_Forall
    (fun _ name =>
       is_Some (Disper.lane_lengths !! name) /\
       is_Some (Disper.lane_directions !! name))
    Disper.edge_to_lane.
Proof.
  intros edge_id name Hname.
  assert (Hin : name ∈ ["North Out"; "South In"; "West Out"; "South Out";
                        "East Out"; "East In"; "West In"; "North In"]).
  { revert edge_id name Hname. apply (bool_decide_unpack _). vm_compute.
    exact I. }
  repeat (apply elem_of_cons in Hin as [->|Hin]);
    [..|by apply elem_of_nil in Hin]; (split; by eexists).
Qed.

Lemma disper_edge_cases (e : edge_el) :
  (Disper.lane_name_of e = None /\ Disper.edge e = pass) \/
  (exists lane_name L direction,
     Disper.lane_name_of e = Some lane_name /\
     Disper.edge e =
     for_each (lanes e)
       (Disper.lane_body lane_name L direction (start_point L direction))).
Proof.
  unfold Disper.edge.
  destruct (Disper.lane_name_of e) as [name|] eqn:Hname; [right | by left].
  unfold Disper.lane_name_of in Hname.
  destruct (id e) as [edge_id|]; [|discriminate]. simpl in Hname.
  destruct (disper_tables_complete edge_id name Hname) as [[L HL] [d Hd]].
  rewrite HL, Hd. by exists name, L, d.
Qed.

(** the pollutants of a lane element that disper.py does not skip *)
#[local] Abbreviation present :=
  (fun l : lane_el =>
     List.filter (fun p => bool_decide (is_Some (attrib l !! (p +:+ "_normed"))))
                 Disper.POLLUTANTS).

Lemma disper_lane_body_keys lane_name L direction start (l : lane_el) :
  raised (Disper.lane_body lane_name L direction start l) = None ->
  map (fun r => (Disper.lane r, Disper.pollutant r))
      (results (Disper.lane_body lane_name L direction start l)) =
  map (pair lane_name) (present l).
Proof.
  unfold Disper.lane_body. generalize Disper.POLLUTANTS as ps.
  induction ps as [|p ps IH]; intros Hr; [reflexivity|].
  rewrite for_each_cons in Hr |- *.
  pose proof (andthen_not_raised _ _ Hr) as (Hr1 & Hr2 & -> & _).
  rewrite map_app, (IH Hr2). simpl List.filter.
  destruct (attrib l !! (p +:+ "_normed")) as [[v|]|]; [| discriminate |];
    reflexivity.
Qed.

(** X10: in a run of disper.py that is not aborted, the (lane, pollutant)
    keys of the appended rows are, in document order, one for each lane
    element of an edge of the registry and each pollutant whose
    "<pollutant>_normed" attribute is present; a lane element without such
    attributes contributes no row (better_disper.py takes a missing
    attribute as 0 instead). *)
Theorem disper_rows_keys (root : root_el)
    (Hrun : raised (Disper.main_loop root) = None) :
  map (fun r => (Disper.lane r, Disper.pollutant r))
      (results (Disper.main_loop root)) =
  flat_map
    (fun e =>
       match Disper.lane_name_of e with
       | None => []
       | Some lane_name =>
           flat_map (fun l => map (pair lane_name) (present l)) (lanes e)
       end)
    (all_edges root).
Proof.
  rewrite <- flat_map_all_edges. unfold Disper.main_loop in Hrun |- *.
  apply for_each_results_map; [exact Hrun|]. intros interval _ Hi.
  apply for_each_results_map; [exact Hi|]. intros e _ He.
  destruct (disper_edge_cases e)
    as [[-> ->]|(name & L & d & -> & Heq)]; [reflexivity|].
  rewrite Heq in He |- *.
  apply for_each_results_map; [exact He|]. intros l _ Hl.
  by apply disper_lane_body_keys.
Qed.

Lemma disper_rows_keys_witness :
  let root :=
    [ {| edges :=
           [ {| id := Some "237386421";
                lanes := [ {| attrib := {[ "CO_normed" := Numeric 100 ]} |};
                           {| attrib := ∅ |} ] |} ] |} ] in
  map (fun r => (Disper.lane r, Disper.pollutant r))
      (results (Disper.main_loop root)) =
  flat_map
    (fun e =>
       match Disper.lane_name_of e with
       | None => []
       | Some lane_name =>
           flat_map (fun l => map (pair lane_name) (present l)) (lanes e)
       end)
    (all_edges root).
Proof.
  intros root. apply (disper_rows_keys root). vm_compute. reflexivity.
Defined.

(** X11: the loop of disper.py never stops on a missing table key (every
    lane name of edge_to_lane is a key of lane_lengths and of
    lane_directions); it stops, with ValueError, exactly when a lane
    element under an edge of the registry has a "<pollutant>_normed"
    attribute that float() cannot parse. *)
Theorem disper_abort (root : root_el) :
  raised (Disper.main_loop root) <> Some KeyError /\
  (raised (Disper.main_loop root) = Some ValueError <->
   exists e l p,
     e ∈ all_edges root /\ Disper.unknown e = false /\
     l ∈ lanes e /\ p ∈ Disper.POLLUTANTS /\
     attrib l !! (p +:+ "_normed") = Some Unparseable).
Proof.
  assert (Hsome : forall x, raised (Disper.main_loop root) = Some x ->
            x = ValueError /\
            exists e l p,
              e ∈ all_edges root /\ Disper.unknown e = false /\
              l ∈ lanes e /\ p ∈ Disper.POLLUTANTS /\
              attrib l !! (p +:+ "_normed") = Some Unparseable).
  { intros x Hx. unfold Disper.main_loop in Hx.
    apply for_each_raised_Some in Hx as (interval & Hi & Hx).
    apply for_each_raised_Some in Hx as (e & He & Hx).
    destruct (disper_edge_cases e)
      as [[_ Heq]|(name & L & d & Hname & Heq)];
      rewrite Heq in Hx; [discriminate|].
    apply for_each_raised_Some in Hx as (l & Hl & Hx).
    unfold Disper.lane_body in Hx.
    apply for_each_raised_Some in Hx as (p & Hp & Hx).
    destruct (attrib l !! (p +:+ "_normed")) as [[v|]|] eqn:Hattr;
      try discriminate.
    injection Hx as <-. split; [reflexivity|]. exists e, l, p.
    split_and!; try done.
    - apply elem_of_all_edges. by exists interval.
    - unfold Disper.unknown. rewrite Hname.
      by apply bool_decide_eq_false_2. }
  split; [intros Hx; by destruct (Hsome _ Hx)|].
  split; [intros Hx; by destruct (Hsome _ Hx)|].
  intros (e & l & p & He & Hu & Hl & Hp & Hattr).
  destruct (raised (Disper.main_loop root)) as [x|] eqn:Hx.
  - destruct (Hsome _ eq_refl) as [-> _]. reflexivity.
  - exfalso. apply elem_of_all_edges in He as (interval & Hi & He).
    unfold Disper.main_loop in Hx.
    pose proof (for_each_not_raised _ _ _ Hx Hi) as Hx1.
    pose proof (for_each_not_raised _ _ _ Hx1 He) as Hx2.
    destruct (disper_edge_cases e)
      as [[Hnone _]|(name & L & d & _ & Heq)].
    + unfold Disper.unknown in Hu. rewrite Hnone in Hu.
      by rewrite bool_decide_eq_true_2 in Hu.
    + rewrite Heq in Hx2.
      pose proof (for_each_not_raised _ _ _ Hx2 Hl) as Hx3.
      unfold Disper.lane_body in Hx3.
      pose proof (for_each_not_raised _ _ _ Hx3 Hp) as Hx4.
      cbv beta in Hx4. rewrite Hattr in Hx4. discriminate.
Qed.

End DisperFacts.

Section DisperV3Facts.
Import Floats Binary64.
#[local] Set Warnings "-inexact-float".
#[local] Open Scope float_scope.

(** the edges whose id is a key of EDGE_TO_LANE *)
#[local] Abbreviation v3_known :=
  (fun e : edge_el =>
     bool_decide (is_Some (id e ≫= (DisperV3.EDGE_TO_LANE !!.)))).

Lemma disper_v3_tables_complete :
  map_Forall
    (fun _ name =>
       is_Some (DisperV3.LANE_DIRECTIONS !! name) /\
       is_Some (DisperV3.LANE_LENGTHS !! name))
    DisperV3.EDGE_TO_LANE.
Proof.
  intros edge_id name Hname.
  assert (Hin : name ∈ ["North Out"; "South In"; "West Out"; "South Out";
                        "East Out"; "East In"; "West In"; "North In"]).
  { revert edge_id name Hname. apply (bool_decide_unpack _). vm_compute.
    exact I. }
  repeat (apply elem_of_cons in Hin as [->|Hin]);
    [..|by apply elem_of_nil in Hin]; (split; by eexists).
Qed.

(** the pollutant loop of one lane element *)
#[local] Abbreviation v3_pollutants :=
  (fun (lane_name : string) (L : float) (direction : vec) (l : lane_el) =>
     for_each POLLUTANTS (fun pollutant =>
       match get_float_default l (pollutant +:+ "_normed") with
       | None => raise ValueError
       | Some normed_val =>
           for_each (seq 0 segments_per_lane)
             (DisperV3.segment lane_name pollutant L direction
                (start_point L direction) (normed_val * 1e-6 / 3600))
       end) : trace DisperV3.row DisperV3.event).

Lemma disper_v3_lane_cases (edge_id : option string) (l : lane_el) :
  (edge_id ≫= (DisperV3.EDGE_TO_LANE !!.) = None /\
   DisperV3.lane_body edge_id l = pass) \/
  (exists key lane_name direction L,
     edge_id = Some key /\
     DisperV3.EDGE_TO_LANE !! key = Some lane_name /\
     DisperV3.lane_body edge_id l =
     andthen (print (DisperV3.Processing_lane lane_name direction))
             (v3_pollutants lane_name L direction l)).
Proof.
  unfold DisperV3.lane_body.
  destruct edge_id as [key|]; [|by left]. simpl.
  destruct (DisperV3.EDGE_TO_LANE !! key) as [name|] eqn:Hname; [|by left].
  right. destruct (disper_v3_tables_complete key name Hname)
    as [[d Hd] [L HL]].
  rewrite Hd, HL. by exists key, name, d, L.
Qed.

Lemma disper_v3_segment_raised lane_name pollutant L direction start e i :
  raised (DisperV3.segment lane_name pollutant L direction start e i) = None.
Proof. reflexivity. Qed.

Lemma disper_v3_segment_length lane_name pollutant L direction start e i :
  length (results
            (DisperV3.segment lane_name pollutant L direction start e i)) = 3%nat.
Proof. reflexivity. Qed.

Lemma disper_v3_pollutants_length lane_name L direction (l : lane_el) :
  raised (v3_pollutants lane_name L direction l) = None ->
  length (results (v3_pollutants lane_name L direction l)) = 120%nat.
Proof.
  intros Hr.
  transitivity (sum_list_with (fun _ : string => 30%nat) POLLUTANTS);
    [|reflexivity].
  apply (for_each_count (fun t => length (results t)));
    [reflexivity | exact length_results_andthen | exact Hr |].
  intros p _ Hp.
  destruct (get_float_default l (p +:+ "_normed")) as [v|]; [|discriminate].
  transitivity (sum_list_with (fun _ : nat => 3%nat) (seq 0 segments_per_lane));
    [|reflexivity].
  apply (for_each_count (fun t => length (results t)));
    [reflexivity | exact length_results_andthen | exact Hp |].
  intros i _ _. apply disper_v3_segment_length.
Qed.

(** X12: disper_v3.py has no wind filter: a run that is not aborted
    appends 120 rows (4 pollutants, 10 segments, 3 receptors) for each
    lane element of an edge of the registry, and nothing for the lane
    elements of other edges. *)
Theorem disper_v3_accounting (root : root_el)
    (Hrun : raised (DisperV3.main_loop root) = None) :
  length (results (DisperV3.main_loop root)) =
  (120 * length (flat_map lanes (List.filter v3_known (all_edges root))))%nat.
Proof.
  rewrite <- sum_intervals. unfold DisperV3.main_loop in Hrun |- *.
  apply (for_each_count (fun t => length (results t)));
    [reflexivity | exact length_results_andthen | exact Hrun |].
  intros interval _ Hi. rewrite <- sum_known_lanes.
  apply (for_each_count (fun t => length (results t)));
    [reflexivity | exact length_results_andthen | exact Hi |].
  intros e _ He. unfold DisperV3.edge in He |- *. cbv beta.
  destruct (bool_decide _) eqn:Hk.
  - rewrite <- sum_list_with_const.
    apply (for_each_count (fun t => length (results t)));
      [reflexivity | exact length_results_andthen | exact He |].
    intros l _ Hl.
    destruct (disper_v3_lane_cases (id e) l)
      as [[Hnone _]|(key & name & d & L & _ & _ & Heq)].
    + apply bool_decide_eq_true in Hk. rewrite Hnone in Hk.
      by destruct Hk.
    + rewrite Heq in Hl |- *.
      apply andthen_not_raised in Hl as (_ & Hl & -> & _).
      simpl. by apply disper_v3_pollutants_length.
  - transitivity (sum_list_with (fun _ : lane_el => 0%nat) (lanes e));
      [|apply sum_list_with_const].
    apply (for_each_count (fun t => length (results t)));
      [reflexivity | exact length_results_andthen | exact He |].
    intros l _ _.
    destruct (disper_v3_lane_cases (id e) l)
      as [[_ ->]|(key & name & d & L & Hid & Hname & _)]; [reflexivity|].
    apply bool_decide_eq_false in Hk. exfalso. apply Hk.
    rewrite Hid. simpl. by rewrite Hname.
Qed.

(** X13: every row disper_v3.py appends carries a lane name of the
    registry, one of the four pollutants, a segment index below 10, the
    index and the coordinates of one of the three receptors, and a
    distance that does not compare equal to 0. *)
Theorem disper_v3_rows (root : root_el) :
  Forall
    (fun r =>
       (exists edge_id,
          DisperV3.EDGE_TO_LANE !! edge_id = Some (DisperV3.lane r)) /\
       DisperV3.pollutant r ∈ POLLUTANTS /\
       (DisperV3.segment_index r < segments_per_lane)%nat /\
       DisperV3.receptors !! DisperV3.receptor_idx r =
         Some (DisperV3.receptor_x r, DisperV3.receptor_y r) /\
       (DisperV3.distance_to_receptor_m r =? 0) = false)
    (results (DisperV3.main_loop root)).
Proof.
  unfold DisperV3.main_loop.
  apply for_each_results_Forall. intros interval _.
  apply for_each_results_Forall. intros e _. unfold DisperV3.edge.
  apply for_each_results_Forall. intros l _.
  destruct (disper_v3_lane_cases (id e) l)
    as [[_ ->]|(key & name & d & L & _ & Hname & ->)]; [constructor|].
  rewrite andthen_print_l. cbn [results].
  apply for_each_results_Forall. intros p Hp.
  destruct (get_float_default l _) as [v|]; [|constructor].
  apply for_each_results_Forall. intros i Hi. unfold DisperV3.segment.
  apply for_each_results_Forall. intros [idx rc] Hrc.
  apply elem_of_lookup_imap in Hrc as (idx' & rc' & [= -> ->] & Hlookup).
  apply Forall_singleton. simpl. split_and!; try done.
  - by exists key.
  - apply elem_of_seq in Hi. unfold segments_per_lane in *. lia.
  - rewrite Hlookup. by destruct rc'.
  - destruct (norm _ =? 0) eqn:Hd; [reflexivity | exact Hd].
Qed.

(** X14: the loop of disper_v3.py never stops on a missing table key; it
    stops, with ValueError, exactly when a lane element under an edge of
    the registry has a "<pollutant>_normed" attribute that float() cannot
    parse. *)
Theorem disper_v3_abort (root : root_el) :
  raised (DisperV3.main_loop root) <> Some KeyError /\
  (raised (DisperV3.main_loop root) = Some ValueError <->
   exists e l p,
     e ∈ all_edges root /\ v3_known e = true /\
     l ∈ lanes e /\ p ∈ POLLUTANTS /\
     attrib l !! (p +:+ "_normed") = Some Unparseable).
Proof.
  assert (Hsome : forall x, raised (DisperV3.main_loop root) = Some x ->
            x = ValueError /\
            exists e l p,
              e ∈ all_edges root /\ v3_known e = true /\
              l ∈ lanes e /\ p ∈ POLLUTANTS /\
              attrib l !! (p +:+ "_normed") = Some Unparseable).
  { intros x Hx. unfold DisperV3.main_loop in Hx.
    apply for_each_raised_Some in Hx as (interval & Hi & Hx).
    apply for_each_raised_Some in Hx as (e & He & Hx).
    unfold DisperV3.edge in Hx.
    apply for_each_raised_Some in Hx as (l & Hl & Hx).
    destruct (disper_v3_lane_cases (id e) l)
      as [[_ Heq]|(key & name & d & L & Hid & Hname & Heq)];
      rewrite Heq in Hx; [discriminate|].
    rewrite andthen_print_l in Hx. cbn [raised] in Hx.
    apply for_each_raised_Some in Hx as (p & Hp & Hx).
    destruct (get_float_default l (p +:+ "_normed")) as [v|] eqn:Hget.
    - rewrite for_each_raised_None in Hx; [discriminate|].
      intros i _. apply disper_v3_segment_raised.
    - injection Hx as <-. split; [reflexivity|]. exists e, l, p.
      split_and!; try done.
      + apply elem_of_all_edges. by exists interval.
      + apply bool_decide_eq_true. rewrite Hid. simpl. by rewrite Hname.
      + by apply get_float_default_None. }
  split; [intros Hx; by destruct (Hsome _ Hx)|].
  split; [intros Hx; by destruct (Hsome _ Hx)|].
  intros (e & l & p & He & Hk & Hl & Hp & Hattr).
  destruct (raised (DisperV3.main_loop root)) as [x|] eqn:Hx.
  - destruct (Hsome _ eq_refl) as [-> _]. reflexivity.
  - exfalso. apply elem_of_all_edges in He as (interval & Hi & He).
    unfold DisperV3.main_loop in Hx.
    pose proof (for_each_not_raised _ _ _ Hx Hi) as Hx1.
    pose proof (for_each_not_raised _ _ _ Hx1 He) as Hx2.
    unfold DisperV3.edge in Hx2.
    pose proof (for_each_not_raised _ _ _ Hx2 Hl) as Hx3.
    destruct (disper_v3_lane_cases (id e) l)
      as [[Hnone _]|(key & name & d & L & _ & _ & Heq)].
    + apply bool_decide_eq_true in Hk. rewrite Hnone in Hk. by destruct Hk.
    + rewrite Heq in Hx3.
      apply andthen_not_raised in Hx3 as (_ & Hx3 & _).
      pose proof (for_each_not_raised _ _ _ Hx3 Hp) as Hx4.
      apply get_float_default_None in Hattr. cbv beta in Hx4.
      rewrite Hattr in Hx4. discriminate.
Qed.

Lemma disper_v3_accounting_witness :
  let root :=
    [ {| edges :=
           [ {| id := Some "237386421";
                lanes := [ {| attrib := {[ "CO_normed" := Numeric 100 ]} |} ] |};
             {| id := Some "junction";
                lanes := [ {| attrib := ∅ |} ] |} ] |} ] in
  length (results (DisperV3.main_loop root)) =
  (120 * length (flat_map lanes (List.filter v3_known (all_edges root))))%nat.
Proof.
  intros root. apply (disper_v3_accounting root). vm_compute. reflexivity.
Defined.

(** every lane name of the registry has a direction and a flow word *)
Lemma registry_names_extract :
  map_Forall
    (fun _ name =>
       is_Some (Exact.str_extract ["North"; "South"; "East"; "West"] name) /\
       is_Some (Exact.str_extract ["In"; "Out"] name))
    DisperV3.EDGE_TO_LANE.
Proof. apply (bool_decide_unpack _). vm_compute. exact I. Qed.

Lemma disper_v3_rows_lane (root : root_el) :
  Forall
    (fun r => exists edge_id,
       DisperV3.EDGE_TO_LANE !! edge_id = Some (DisperV3.lane r))
    (results (DisperV3.main_loop root)).
Proof.
  unfold DisperV3.main_loop.
  apply for_each_results_Forall. intros interval _.
  apply for_each_results_Forall. intros e _. unfold DisperV3.edge.
  apply for_each_results_Forall. intros l _.
  destruct (disper_v3_lane_cases (id e) l)
    as [[_ ->]|(key & name & d & L & _ & Hname & ->)]; [constructor|].
  rewrite andthen_print_l. cbn [results].
  apply for_each_results_Forall. intros p _.
  destruct (get_float_default l _) as [v|]; [|constructor].
  apply for_each_results_Forall. intros i _. unfold DisperV3.segment.
  apply for_each_results_Forall. intros [idx rc] _.
  apply Forall_singleton. by exists key.
Qed.

(** X4: in disper_v3.py the keys of the per-direction, per-flow and
    overall tables are those of the per-lane table read through the
    extraction: a direction (a flow) has an entry for a pollutant exactly
    when a lane whose name has that direction (flow) has one, and a
    pollutant has an entry in the overall table exactly when it has one
    for some lane, and exactly when it has one for some receptor. *)
Theorem disper_v3_table_keys (acc : accumulator) (rows : list DisperV3.row)
    (p : string) :
  (forall d,
     (d, p) ∈ (DisperV3.dir_pollutant_agg acc rows).*1 <->
     exists lane,
       (lane, p) ∈ (DisperV3.lane_pollutant_agg acc rows).*1 /\
       Exact.str_extract ["North"; "South"; "East"; "West"] lane = Some d) /\
  (forall f,
     (f, p) ∈ (DisperV3.flow_pollutant_agg acc rows).*1 <->
     exists lane,
       (lane, p) ∈ (DisperV3.lane_pollutant_agg acc rows).*1 /\
       Exact.str_extract ["In"; "Out"] lane = Some f) /\
  (p ∈ (DisperV3.overall_pollutant_agg acc rows).*1 <->
   exists lane, (lane, p) ∈ (DisperV3.lane_pollutant_agg acc rows).*1) /\
  (p ∈ (DisperV3.overall_pollutant_agg acc rows).*1 <->
   exists idx x y,
     (idx, x, y, p) ∈ (DisperV3.receptor_pollutant_agg acc rows).*1).
Proof.
  unfold DisperV3.dir_pollutant_agg, DisperV3.flow_pollutant_agg,
    DisperV3.overall_pollutant_agg, DisperV3.lane_pollutant_agg,
    DisperV3.receptor_pollutant_agg.
  split_and!.
  - intros d. rewrite elem_of_keys64. split.
    + intros (r & Hr & Hk). unfold DisperV3.direction in Hk.
      destruct (Exact.str_extract _ (DisperV3.lane r)) as [d'|] eqn:Hd;
        [|discriminate].
      simpl in Hk. injection Hk as -> <-.
      exists (DisperV3.lane r). split; [|exact Hd].
      apply elem_of_keys64. by exists r.
    + intros (lane & Hlane & Hd).
      apply elem_of_keys64 in Hlane as (r & Hr & [= <- <-]).
      exists r. split; [exact Hr|]. unfold DisperV3.direction.
      by rewrite Hd.
  - intros f. rewrite elem_of_keys64. split.
    + intros (r & Hr & Hk). unfold DisperV3.flow in Hk.
      destruct (Exact.str_extract _ (DisperV3.lane r)) as [f'|] eqn:Hf;
        [|discriminate].
      simpl in Hk. injection Hk as -> <-.
      exists (DisperV3.lane r). split; [|exact Hf].
      apply elem_of_keys64. by exists r.
    + intros (lane & Hlane & Hf).
      apply elem_of_keys64 in Hlane as (r & Hr & [= <- <-]).
      exists r. split; [exact Hr|]. unfold DisperV3.flow.
      by rewrite Hf.
  - rewrite elem_of_keys64. split.
    + intros (r & Hr & [= <-]). exists (DisperV3.lane r).
      apply elem_of_keys64. by exists r.
    + intros (lane & Hlane).
      apply elem_of_keys64 in Hlane as (r & Hr & [= <- <-]). by exists r.
  - rewrite elem_of_keys64. split.
    + intros (r & Hr & [= <-]).
      exists (DisperV3.receptor_idx r), (DisperV3.receptor_x r),
        (DisperV3.receptor_y r).
      apply elem_of_keys64. by exists r.
    + intros (idx & x & y & Hrec).
      apply elem_of_keys64 in Hrec as (r & Hr & [= <- <- <- <-]).
      by exists r.
Qed.

(** X5: no row that the loop of disper_v3.py appends is dropped from any
    of its five tables: the lane name of every row has a direction and a
    flow word, so the extraction never gives NaN, and the key of the row
    has an entry in the per-lane, per-direction, per-flow, overall and
    per-receptor table. *)
Theorem disper_v3_rows_in_every_table (acc : accumulator) (root : root_el) :
  let rows := results (DisperV3.main_loop root) in
  Forall
    (fun r =>
       exists d f,
         DisperV3.direction r = Some d /\ DisperV3.flow r = Some f /\
         (DisperV3.lane r, DisperV3.pollutant r)
           ∈ (DisperV3.lane_pollutant_agg acc rows).*1 /\
         (d, DisperV3.pollutant r)
           ∈ (DisperV3.dir_pollutant_agg acc rows).*1 /\
         (f, DisperV3.pollutant r)
           ∈ (DisperV3.flow_pollutant_agg acc rows).*1 /\
         DisperV3.pollutant r
           ∈ (DisperV3.overall_pollutant_agg acc rows).*1 /\
         (DisperV3.receptor_idx r, DisperV3.receptor_x r,
          DisperV3.receptor_y r, DisperV3.pollutant r)
           ∈ (DisperV3.receptor_pollutant_agg acc rows).*1)
    rows.
Proof.
  intros rows. apply Forall_forall. intros r Hr.
  pose proof (proj1 (Forall_forall _ _) (disper_v3_rows_lane root) r Hr)
    as [edge_id Hlane].
  destruct (registry_names_extract edge_id _ Hlane) as [[d Hd] [f Hf]].
  exists d, f.
  unfold DisperV3.dir_pollutant_agg, DisperV3.flow_pollutant_agg,
    DisperV3.overall_pollutant_agg, DisperV3.lane_pollutant_agg,
    DisperV3.receptor_pollutant_agg, DisperV3.direction, DisperV3.flow.
  split_and!; try done; apply elem_of_keys64; exists r;
    (split; [exact Hr|]); try reflexivity.
  - unfold DisperV3.direction. by rewrite Hd.
  - unfold DisperV3.flow. by rewrite Hf.
Qed.

End DisperV3Facts.

(** * Further properties of the segment decomposition and of the sector *)

Section GeometryFacts.
Import Exact.
#[local] Open Scope R_scope.

Lemma norm_eq_0 (v : vec) : norm v = 0 -> v.1 = 0 /\ v.2 = 0.
Proof.
  unfold norm. intros Hn. apply sqrt_eq_0 in Hn; [|nra]. split; nra.
Qed.

(** the centre of segment [i] of a lane through the origin *)
Lemma centred_position (direction : vec) (L : R) (i n : nat) :
  (0 < n)%nat ->
  get_segment_position (start_point L direction) direction L i n =
  vscale direction ((2 * INR i + 1 - INR n) * L / (2 * INR n)).
Proof.
  intros Hn. assert (Hne : INR n <> 0) by (apply not_0_INR; lia).
  unfold get_segment_position, start_point, vadd, vscale, sscale. simpl.
  replace 0.5 with (1 / 2) by lra. replace (-0.5) with (- (1 / 2)) by lra.
  f_equal; field; exact Hne.
Qed.

(** X16: the emission rates of the n segments of a lane add up to the
    emission of the lane, emission_per_m * L, whatever the number of
    segments: in v2_better_disper.py (and the scripts that share its loop
    body), better_disper.py and disper_v3.py, and with disper.py's
    conversion constant likewise. *)
Theorem segment_rates_add_up (normed L : R) (n : nat) (Hn : (0 < n)%nat) :
  Rsum (map (fun _ => V2.Q normed L n) (seq 0 n)) =
    V2.emission_per_m normed * L /\
  Rsum (map (fun _ => BetterDisper.Q_i normed L n) (seq 0 n)) =
    BetterDisper.emission_per_m normed * L /\
  Rsum (map (fun _ => DisperV3.Q normed L n) (seq 0 n)) =
    DisperV3.emission_per_m normed * L /\
  Rsum (map (fun _ => Disper.Q normed L n) (seq 0 n)) = Disper.E normed * L.
Proof.
  assert (Hne : INR n <> 0) by (apply not_0_INR; lia).
  assert (Hconst : forall (q : R) (m k : nat),
            Rsum (map (fun _ => q) (seq k m)) = INR m * q).
  { intros q m. induction m as [|m IH]; intros k; [simpl; lra|].
    cbn [seq map Rsum fold_right]. fold (Rsum (map (fun _ => q) (seq (S k) m))).
    rewrite IH, S_INR. ring. }
  rewrite !Hconst.
  unfold V2.Q, BetterDisper.Q_i, DisperV3.Q, Disper.Q.
  split_and!; field; exact Hne.
Qed.

Lemma segment_rates_add_up_witness :
  Rsum (map (fun _ => V2.Q 100 74.5 10) (seq 0 10)) =
  V2.emission_per_m 100 * 74.5.
Proof.
  exact (proj1 (segment_rates_add_up 100 74.5 10 ltac:(lia))).
Defined.

(** X17: plot_intersection_outline of v7_webapp.py asks for
    segments_per_lane + 1 points: the n segment centres and one more
    point, which lies half a segment beyond the end of the lane; the
    outline so runs from direction * (L/(2n) - L/2) to
    direction * (L/2 + L/(2n)). *)
Theorem outline_overshoots (direction : vec) (L : R) (n : nat)
    (Hn : (0 < n)%nat) :
  V7.lane_points direction L n =
    V2.segment_positions (start_point L direction) direction L n ++
    [vscale direction (L / 2 + L / (2 * INR n))] /\
  head (V7.lane_points direction L n) =
    Some (vscale direction (L / (2 * INR n) - L / 2)) /\
  length (V7.lane_points direction L n) = S n.
Proof.
  assert (Hne : INR n <> 0) by (apply not_0_INR; lia).
  assert (Hpts : V7.lane_points direction L n =
            V2.segment_positions (start_point L direction) direction L n ++
            [vscale direction (L / 2 + L / (2 * INR n))]).
  { unfold V7.lane_points, V2.segment_positions.
    replace (n + 1)%nat with (S n) by lia.
    rewrite seq_S, map_app. simpl. f_equal. f_equal.
    rewrite centred_position by exact Hn.
    unfold vscale. simpl. f_equal; field; exact Hne. }
  split; [exact Hpts|]. split.
  - unfold V7.lane_points. replace (n + 1)%nat with (S n) by lia.
    cbn [seq map head]. rewrite centred_position by exact Hn.
    change (INR 0) with 0. unfold vscale. cbn [fst snd].
    f_equal. f_equal; field; exact Hne.
  - unfold V7.lane_points. rewrite length_map, length_seq. lia.
Qed.

Lemma outline_overshoots_witness :
  length (V7.lane_points (0, -1) 74.5 10) = 11%nat.
Proof.
  exact (proj2 (proj2 (outline_overshoots (0, -1) 74.5 10 ltac:(lia)))).
Defined.

(** X18: the lanes of LANE_DIRECTIONS run along the coordinate axes
    through the origin, so a segment centre never coincides with a
    receptor that lies off both axes (such as (-1, -3) of
    v2_better_disper.py and (-5, -2) of v5_webapp.py): for such a receptor
    the distance is positive and the replacement "if r == 0: r = 0.1"
    never takes place. *)
Theorem off_axis_receptor_never_coincides
    (lane_name : string) (direction receptor : vec) (L : R) (i n : nat)
    (Hlane : V2.LANE_DIRECTIONS !! lane_name = Some direction)
    (Hx : receptor.1 <> 0) (Hy : receptor.2 <> 0) :
  let pos := get_segment_position (start_point L direction) direction L i n in
  (pos.1 = 0 \/ pos.2 = 0) /\
  0 < norm (vsub pos receptor) /\
  V2.r_used (norm (vsub pos receptor)) = norm (vsub pos receptor).
Proof.
  intros pos.
  assert (Haxis : direction.1 = 0 \/ direction.2 = 0).
  { assert (Hin : direction ∈ [(0, -1); (0, 1); (1, 0); (-1, 0)] : Prop).
    { unfold V2.LANE_DIRECTIONS in Hlane.
      repeat (apply lookup_insert_Some in Hlane
                as [[_ <-]|[_ Hlane]]; [set_solver|]).
      apply lookup_singleton_Some in Hlane as [_ <-]. set_solver. }
    repeat (apply elem_of_cons in Hin as [->|Hin]); simpl; auto.
    by apply elem_of_nil in Hin. }
  assert (Hpos : pos.1 = 0 \/ pos.2 = 0).
  { unfold pos, get_segment_position, start_point, vadd, vscale, sscale.
    simpl. destruct Haxis as [-> | ->]; [left | right]; ring. }
  assert (Hne : norm (vsub pos receptor) <> 0).
  { intros Hzero. apply norm_eq_0 in Hzero as [H1 H2].
    unfold vsub in H1, H2. cbn [fst snd] in H1, H2.
    destruct Hpos as [Hp|Hp]; [apply Hx | apply Hy]; lra. }
  split; [exact Hpos|]. split.
  - assert (0 <= norm (vsub pos receptor)) by apply sqrt_pos. lra.
  - unfold V2.r_used. by rewrite decide_False.
Qed.

Lemma off_axis_receptor_never_coincides_witness :
  let pos := get_segment_position (start_point 74.5 (0, -1)) (0, -1) 74.5 0 10 in
  0 < norm (vsub pos (-1, -3)).
Proof.
  intros pos.
  refine (proj1 (proj2 (off_axis_receptor_never_coincides
                          "North" (0, -1) (-1, -3) 74.5 0 10 _ _ _))).
  - reflexivity.
  - simpl. lra.
  - simpl. lra.
Defined.

End GeometryFacts.

Section SectorFacts.
Import Exact.
#[local] Open Scope R_scope.

Lemma Int_part_bounds (r : R) : IZR (Int_part r) <= r < IZR (Int_part r) + 1.
Proof. destruct (base_Int_part r). lra. Qed.

Lemma fmod_periodic (x m : R) (k : Z) :
  0 < m -> fmod (x + m * IZR k) m = fmod x m.
Proof.
  intros Hm. pose proof (Int_part_bounds (x / m)) as [Hlo Hhi].
  set (q := Int_part (x / m)) in *.
  assert (Hx : IZR q * m <= x < (IZR q + 1) * m).
  { assert (Heq : x / m * m = x) by (field; lra). split.
    - apply Rmult_le_compat_r with (r := m) in Hlo; lra.
    - apply Rmult_lt_compat_r with (r := m) in Hhi; lra. }
  rewrite (fmod_shift (x + m * IZR k) m (q + k)); [|exact Hm|].
  - rewrite (fmod_shift x m q Hm Hx). rewrite plus_IZR. ring.
  - rewrite plus_IZR. split; nra.
Qed.

Lemma arctan2_scale (k y x : R) :
  0 < k -> arctan2 (k * y) (k * x) = arctan2 y x.
Proof.
  intros Hk. unfold arctan2.
  assert (Hratio : x <> 0 -> k * y / (k * x) = y / x)
    by (intros; field; split; lra).
  destruct (decide (0 < x)) as [Hx|Hx].
  - rewrite decide_True by nra. rewrite Hratio by lra. reflexivity.
  - rewrite (decide_False (P := 0 < k * x)) by nra.
    destruct (decide (x < 0)) as [Hx'|Hx'].
    + rewrite decide_True by nra. rewrite Hratio by lra.
      destruct (decide (0 <= y)).
      * rewrite decide_True by nra. reflexivity.
      * rewrite decide_False by nra. reflexivity.
    + rewrite (decide_False (P := k * x < 0)) by nra.
      destruct (decide (0 < y)).
      * rewrite decide_True by nra. reflexivity.
      * rewrite (decide_False (P := 0 < k * y)) by nra.
        destruct (decide (y < 0)).
        -- rewrite decide_True by nra. reflexivity.
        -- rewrite decide_False by nra. reflexivity.
Qed.

Lemma circular_difference_range (a b : R) :
  0 <= a < 360 -> 0 <= b < 360 ->
  0 <= Rmin (Rabs (a - b)) (360 - Rabs (a - b)) <= 180.
Proof.
  intros Ha Hb. unfold Rmin, Rabs.
  destruct (Rcase_abs (a - b)); destruct (Rle_dec _ _); lra.
Qed.

Lemma bearing_coincident (p : vec) : V2.bearing p p = 0.
Proof.
  unfold V2.bearing, vsub. cbn [fst snd].
  replace (p.2 - p.2) with 0 by ring. replace (p.1 - p.1) with 0 by ring.
  unfold arctan2. destruct (decide (0 < 0)) as [Hlt|_]; [lra|].
  unfold degrees. rewrite Rmult_0_l, Rplus_0_l.
  rewrite (fmod_shift 360 360 1); lra.
Qed.

(** X19: is_downwind depends on the receptor only through its direction
    from the source: moving the receptor along the ray from the source
    (by any factor k > 0) does not change the answer; and it depends on
    the wind direction only modulo 360 degrees. *)
Theorem is_downwind_direction_only (src receptor : vec) (w h k : R) (j : Z)
    (Hk : 0 < k) :
  V2.is_downwind src (vadd src (sscale k (vsub receptor src))) w h =
    V2.is_downwind src receptor w h /\
  V2.is_downwind src receptor (w + 360 * IZR j) h =
    V2.is_downwind src receptor w h.
Proof.
  split.
  - unfold V2.is_downwind, V2.bearing.
    replace (vsub (vadd src (sscale k (vsub receptor src))) src)
      with (sscale k (vsub receptor src)).
    + unfold sscale. cbn [fst snd]. rewrite arctan2_scale by exact Hk.
      reflexivity.
    + unfold vsub, vadd, sscale. cbn [fst snd]. f_equal; ring.
  - unfold V2.is_downwind, V2.downwind_center.
    replace (w + 360 * IZR j + 180) with (w + 180 + 360 * IZR j) by ring.
    rewrite fmod_periodic by lra. reflexivity.
Qed.

Lemma is_downwind_direction_only_witness :
  V2.is_downwind (0, 0) (vadd (0, 0) (sscale 2 (vsub (1, 1) (0, 0)))) 90 45 =
  V2.is_downwind (0, 0) (1, 1) 90 45.
Proof.
  exact (proj1 (is_downwind_direction_only (0, 0) (1, 1) 90 45 2 0
                  ltac:(lra))).
Defined.

Lemma is_downwind_wide (src receptor : vec) (w h : R) :
  180 <= h -> V2.is_downwind src receptor w h = true.
Proof.
  intros Hh. unfold V2.is_downwind.
  pose proof (circular_difference_range
                (V2.bearing src receptor) (V2.downwind_center w)
                (bearing_range src receptor)
                ltac:(unfold V2.downwind_center; apply fmod_range; lra))
    as [Hlo Hhi].
  apply bool_decide_eq_true. lra.
Qed.

Lemma is_downwind_negative (src receptor : vec) (w h : R) :
  h < 0 -> V2.is_downwind src receptor w h = false.
Proof.
  intros Hh. unfold V2.is_downwind.
  pose proof (circular_difference_range
                (V2.bearing src receptor) (V2.downwind_center w)
                (bearing_range src receptor)
                ltac:(unfold V2.downwind_center; apply fmod_range; lra))
    as [Hlo Hhi].
  apply bool_decide_eq_false. lra.
Qed.

(** X20: the sector test has two trivial regimes, whatever the wind
    direction: with a half angle of 180 degrees or more every receptor is
    downwind of every source, and a lane element then appends one row for
    every pollutant, segment and receptor; with a negative half angle no
    receptor is downwind and no row is appended. *)
Theorem is_downwind_extremes (w h : R) (receptors : list vec)
    (wind_speed mixing_height : R) (lane_name : string) (direction : vec)
    (L : R) (normed : string -> R) :
  let rows :=
    V2.lane_rows wind_speed mixing_height w h receptors lane_name direction
                 L normed in
  (180 <= h ->
   (forall src receptor, V2.is_downwind src receptor w h = true) /\
   length rows =
   (length POLLUTANTS * segments_per_lane * length receptors)%nat) /\
  (h < 0 ->
   (forall src receptor, V2.is_downwind src receptor w h = false) /\
   rows = []).
Proof.
  intros rows.
  assert (Hlen : forall {A B : Type} (f : A -> list B) (n : nat) (l : list A),
            (forall a, length (f a) = n) ->
            length (flat_map f l) = (length l * n)%nat).
  { intros A B f n l Hf. induction l as [|a l IH]; [reflexivity|].
    simpl. rewrite length_app, Hf, IH. lia. }
  split; intros Hh.
  - split; [intros; by apply is_downwind_wide|].
    unfold rows, V2.lane_rows.
    rewrite (Hlen _ _ _ (segments_per_lane * length receptors)%nat);
      [lia|].
    intros p.
    rewrite (Hlen _ _ _ (length receptors)), length_seq; [lia|].
    intros i. unfold V2.receptor_rows.
    rewrite (Hlen _ _ _ 1%nat), length_imap; [lia|].
    intros [ridx receptor]. by rewrite is_downwind_wide.
  - split; [intros; by apply is_downwind_negative|].
    assert (Hnil : forall {A B : Type} (f : A -> list B) (l : list A),
              (forall a, f a = []) -> flat_map f l = []).
    { intros A B f l Hf. induction l as [|a l IH]; [reflexivity|].
      simpl. by rewrite Hf, IH. }
    unfold rows, V2.lane_rows. apply Hnil. intros p. apply Hnil. intros i.
    unfold V2.receptor_rows. apply Hnil. intros [ridx receptor].
    by rewrite is_downwind_negative.
Qed.

(** X21: a receptor that coincides with the source has bearing 0
    (np.arctan2(0, 0) is 0), so for a wind direction in [0, 360) it is
    downwind exactly when the wind direction is within the half angle of
    180 degrees: with the settings of v2_better_disper.py and
    v3_better_disper.py (wind 90, half angle 45) a coincident segment is
    filtered out, with those of v5_webapp.py and v7_webapp.py (wind 217)
    it passes. *)
Theorem is_downwind_coincident (p : vec) (w h : R) (Hw : 0 <= w < 360) :
  (V2.is_downwind p p w h = true <-> Rabs (w - 180) <= h) /\
  V2.is_downwind p p 90 45 = false /\
  V2.is_downwind p p 217 45 = true.
Proof.
  assert (Hgen : forall w' h', 0 <= w' < 360 ->
            V2.is_downwind p p w' h' = true <-> Rabs (w' - 180) <= h').
  { intros w' h' Hw'. unfold V2.is_downwind.
    rewrite bool_decide_eq_true, bearing_coincident.
    rewrite (downwind_center_cases w' Hw').
    destruct (decide (w' < 180)); unfold Rmin, Rabs;
      repeat destruct (Rcase_abs _); destruct (Rle_dec _ _); lra. }
  split; [apply Hgen; exact Hw|]. split.
  - apply not_true_is_false. rewrite Hgen by lra.
    unfold Rabs. destruct (Rcase_abs _); lra.
  - apply Hgen; [lra|]. unfold Rabs. destruct (Rcase_abs _); lra.
Qed.

Lemma is_downwind_coincident_witness :
  V2.is_downwind (0, 0) (0, 0) 180 0 = true <-> Rabs (180 - 180) <= 0.
Proof.
  exact (proj1 (is_downwind_coincident (0, 0) 180 0 ltac:(lra))).
Defined.

End SectorFacts.

(** * The rows of the sector scripts *)

Section RowFacts.
Import Exact.
#[local] Open Scope R_scope.

Lemma norm_nonneg (v : vec) : 0 <= norm v.
Proof. apply sqrt_pos. Qed.

(** X23: every row the lane loop of v2_better_disper.py (and of
    v3_better_disper.py and v5_webapp.py, which share its body) appends
    belongs to one of the four pollutants and to a segment below 10, lies
    at that segment's centre, names a receptor of the list that is
    downwind of the centre, carries the distance to it, or 0.1 if the two
    coincide, which is positive, and the concentration of the formula for
    that distance; the concentration is not negative when wind speed and
    mixing height are positive and the lane length and the emission value
    are not negative. *)
Theorem v2_rows_invariants (wind_speed mixing_height wind_deg half_angle : R)
    (receptors : list vec) (lane_name : string) (direction : vec) (L : R)
    (normed : string -> R) :
  Forall
    (fun r =>
       V2.lane r = lane_name /\
       V2.pollutant r ∈ POLLUTANTS /\
       (V2.segment_index r < segments_per_lane)%nat /\
       (V2.x r, V2.y r) =
         get_segment_position (start_point L direction) direction L
           (V2.segment_index r) segments_per_lane /\
       (exists receptor,
          receptors !! V2.receptor_id r = Some receptor /\
          V2.is_downwind (V2.x r, V2.y r) receptor wind_deg half_angle = true /\
          V2.distance_to_receptor_m r =
            V2.r_used (norm (vsub (V2.x r, V2.y r) receptor))) /\
       0 < V2.distance_to_receptor_m r /\
       V2.Q_kg_per_s r =
         V2.Q (normed (V2.pollutant r)) L segments_per_lane /\
       V2.C_i_ug_per_m3 r =
         V2.C_i_ug wind_speed mixing_height (V2.Q_kg_per_s r)
                   (V2.distance_to_receptor_m r) /\
       (0 < wind_speed -> 0 < mixing_height -> 0 <= L ->
        0 <= normed (V2.pollutant r) -> 0 <= V2.C_i_ug_per_m3 r))
    (V2.lane_rows wind_speed mixing_height wind_deg half_angle receptors
                  lane_name direction L normed).
Proof.
  unfold V2.lane_rows. apply Forall_flat_map, Forall_forall.
  intros p Hp. apply Forall_flat_map, Forall_forall. intros i Hi.
  unfold V2.receptor_rows. apply Forall_flat_map, Forall_forall.
  intros [ridx receptor] Hr.
  apply elem_of_lookup_imap in Hr as (ridx' & receptor' & [= -> ->] & Hlookup).
  set (pos := get_segment_position (start_point L direction) direction L i
                segments_per_lane).
  destruct (V2.is_downwind pos receptor' wind_deg half_angle) eqn:Hdown;
    [|constructor].
  apply Forall_singleton. cbn [V2.lane V2.pollutant V2.segment_index V2.x V2.y
    V2.receptor_id V2.distance_to_receptor_m V2.Q_kg_per_s V2.C_i_ug_per_m3].
  assert (Hdist : 0 < (if decide (norm (vsub pos receptor') = 0) then 0.1
                       else norm (vsub pos receptor'))).
  { destruct (decide _) as [|Hne]; [lra|].
    pose proof (norm_nonneg (vsub pos receptor')). lra. }
  split_and!; try done.
  - apply elem_of_seq in Hi. unfold segments_per_lane in *. lia.
  - exists receptor'. replace (pos.1, pos.2) with pos by (by destruct pos).
    done.
  - intros HU HH HL Hn. revert Hdist.
    generalize (if decide (norm (vsub pos receptor') = 0) then 0.1
                else norm (vsub pos receptor')) as d.
    intros d Hd.
    replace (INR segments_per_lane) with 10
      by (unfold segments_per_lane; simpl; lra).
    assert (HQ : 0 <= normed p * 1e-6 / 3600 * (L / 10)).
    { apply Rmult_le_pos; lra. }
    assert (Hden : 0 < wind_speed * mixing_height * 0.1 * d).
    { apply Rmult_lt_0_compat; [|exact Hd].
      apply Rmult_lt_0_compat; [|lra]. apply Rmult_lt_0_compat; lra. }
    apply Rmult_le_pos; [|lra]. apply Rmult_le_pos; [lra|].
    apply Rlt_le, Rinv_0_lt_compat, Hden.
Qed.

Lemma flat_map_map_out {A B C : Type} (h : B -> C) (f : A -> list B)
    (l : list A) :
  map h (flat_map f l) = flat_map (fun a => map h (f a)) l.
Proof.
  induction l as [|a l IH]; [reflexivity|]. simpl.
  by rewrite map_app, IH.
Qed.

(** X24: the rows are linear in the emission values: multiplying every
    "<pollutant>_normed" value of a lane element by k leaves the keys,
    positions and distances of its rows as they are and multiplies every
    emission rate and every concentration by k. *)
Theorem v2_rows_linear (wind_speed mixing_height wind_deg half_angle : R)
    (receptors : list vec) (lane_name : string) (direction : vec) (L k : R)
    (normed : string -> R) :
  let rows :=
    V2.lane_rows wind_speed mixing_height wind_deg half_angle receptors
                 lane_name direction L normed in
  let scaled :=
    V2.lane_rows wind_speed mixing_height wind_deg half_angle receptors
                 lane_name direction L (fun p => k * normed p) in
  scaled =
  map (fun r =>
         {| V2.lane := V2.lane r; V2.pollutant := V2.pollutant r;
            V2.segment_index := V2.segment_index r;
            V2.x := V2.x r; V2.y := V2.y r;
            V2.receptor_id := V2.receptor_id r;
            V2.distance_to_receptor_m := V2.distance_to_receptor_m r;
            V2.Q_kg_per_s := k * V2.Q_kg_per_s r;
            V2.C_i_ug_per_m3 := k * V2.C_i_ug_per_m3 r |})
      rows.
Proof.
  intros rows scaled. unfold rows, scaled, V2.lane_rows.
  rewrite flat_map_map_out. apply flat_map_ext. intros p.
  rewrite flat_map_map_out. apply flat_map_ext. intros i.
  unfold V2.receptor_rows.
  rewrite flat_map_map_out. apply flat_map_ext. intros [ridx receptor].
  destruct (V2.is_downwind _ _ _ _); [|reflexivity].
  simpl. f_equal. f_equal; unfold Rdiv; ring.
Qed.

End RowFacts.

(** * The hourly scripts and the screening endpoint *)

Section HourFacts.
Import Exact.
#[local] Open Scope R_scope.

(** X25: v5_webapp.py and v7_webapp.py file an interval under the hour
    int(begin // 3600): the hour is h exactly when
    3600 h <= begin < 3600 (h + 1), also for a negative begin, and a
    later begin never gets an earlier hour. *)
Theorem hour_buckets (start_time_sec : R) (h : Z) :
  (V5.hour_of start_time_sec = h <->
   3600 * IZR h <= start_time_sec < 3600 * (IZR h + 1)) /\
  V7.hour_of start_time_sec = V5.hour_of start_time_sec /\
  (forall later, start_time_sec <= later ->
                 (V5.hour_of start_time_sec <= V5.hour_of later)%Z).
Proof.
  unfold V7.hour_of, V5.hour_of.
  assert (Hiff : forall t z,
            Int_part (t / 3600) = z <-> 3600 * IZR z <= t < 3600 * (IZR z + 1)).
  { intros t z. split.
    - intros <-. pose proof (Int_part_bounds (t / 3600)). lra.
    - intros Ht. apply Int_part_unique; lra. }
  split; [apply Hiff|]. split; [reflexivity|].
  intros later Hle.
  pose proof (proj1 (Hiff start_time_sec _) eq_refl) as H1.
  pose proof (proj1 (Hiff later _) eq_refl) as H2.
  apply Z.lt_succ_r, lt_IZR. rewrite succ_IZR. lra.
Qed.

(** X26: in v7_webapp.py a lane element gives total_df an entry for a
    grid point, under its hour and a pollutant, exactly when the grid
    point is downwind of at least one segment of the lane; a grid point
    downwind of no segment is absent from the table, not present with a
    total of 0. *)
Theorem v7_grid_entries (wind_speed mixing_height wind_deg half_angle : R)
    (grid_points : list vec) (hour : Z) (direction : vec) (L : R)
    (normed : string -> R) (hr : Z) (p : string) (gx gy : R) :
  let rows :=
    V7.lane_rows wind_speed mixing_height wind_deg half_angle grid_points
                 hour direction L normed in
  (hr, p, gx, gy) ∈ (V7.total_df rows).*1 <->
  hr = hour /\ p ∈ POLLUTANTS /\ (gx, gy) ∈ grid_points /\
  exists i, (i < segments_per_lane)%nat /\
    V2.is_downwind
      (get_segment_position (start_point L direction) direction L i
         segments_per_lane)
      (gx, gy) wind_deg half_angle = true.
Proof.
  intros rows.
  etransitivity;
    [exact (keys_fold
              (fun r => Some (V7.hour r, V7.pollutant r, V7.x r, V7.y r))
              V7.C_i_ug_per_m3 rows [] (hr, p, gx, gy))|].
  split.
  - intros [Hnil|(r & Hr & Hkey)]; [by apply elem_of_nil in Hnil|].
    injection Hkey as <- <- <- <-.
    unfold rows, V7.lane_rows in Hr.
    apply list_elem_of_In, in_flat_map in Hr as (p' & Hp' & Hr).
    apply in_flat_map in Hr as (i & Hi & Hr).
    unfold V7.grid_rows in Hr.
    apply in_flat_map in Hr as (gp & Hgp & Hr).
    destruct (V2.is_downwind _ gp wind_deg half_angle) eqn:Hdown;
      [|destruct Hr].
    destruct Hr as [<-|[]]. simpl.
    replace (gp.1, gp.2) with gp by (by destruct gp).
    split_and!; [reflexivity | by apply list_elem_of_In
                | by apply list_elem_of_In |].
    exists i. split; [|exact Hdown].
    apply in_seq in Hi. lia.
  - intros (-> & Hp & Hgp & i & Hi & Hdown). right.
    eexists {| V7.hour := hour; V7.pollutant := p; V7.x := gx; V7.y := gy;
               V7.C_i_ug_per_m3 := _ |}.
    split; [|reflexivity].
    unfold rows, V7.lane_rows.
    apply list_elem_of_In, in_flat_map. exists p.
    split; [by apply list_elem_of_In|].
    apply in_flat_map. exists i. split; [apply in_seq; lia|].
    unfold V7.grid_rows. apply in_flat_map. exists (gx, gy).
    split; [by apply list_elem_of_In|].
    rewrite Hdown. left. reflexivity.
Qed.

End HourFacts.

Section TangaFacts.
Import Exact.
#[local] Open Scope R_scope.

Lemma fold_alter_lookup (f : string -> R -> R) (ps : list string)
    (total : gmap string R) (p : string) :
  NoDup ps ->
  fold_left (fun t q => alter (f q) q t) ps total !! p =
  if decide (p ∈ ps) then f p <$> total !! p else total !! p.
Proof.
  revert total. induction ps as [|a ps IH]; intros total Hnd; [reflexivity|].
  apply NoDup_cons in Hnd as [Ha Hnd]. simpl fold_left. rewrite (IH _ Hnd).
  destruct (decide (p = a)) as [->|Hne].
  - rewrite (decide_False (P := a ∈ ps)) by exact Ha.
    rewrite decide_True by apply list_elem_of_here.
    apply lookup_alter_eq.
  - rewrite lookup_alter_ne by congruence.
    destruct (decide (p ∈ ps)) as [Hin|Hin].
    + rewrite decide_True by (by apply list_elem_of_further). reflexivity.
    + rewrite decide_False; [reflexivity|].
      intros Hin'. apply elem_of_cons in Hin' as [?|?]; done.
Qed.

Lemma POLLUTANTS_NoDup : NoDup POLLUTANTS.
Proof. apply (bool_decide_unpack _). vm_compute. exact I. Qed.

(** the emission of the lanes with a positive length *)
#[local] Abbreviation lane_emission :=
  (fun (p : string) (lanes : list Tanga.lane) =>
     Rsum (map (fun l => Tanga.normed l p * 1e-6 / 3600 * Tanga.length l)
               (filter (fun l => 0 < Tanga.length l) lanes))).

Lemma tanga_fold (lanes : list Tanga.lane) (total : gmap string R)
    (p : string) :
  fold_left
    (fun total l =>
       if decide (Tanga.length l <= 0) then total
       else
         fold_left
           (fun total pollutant =>
              alter (fun q => q + Tanga.Q_seg (Tanga.normed l pollutant)
                                    (Tanga.length l) * INR Tanga.N_seg)
                    pollutant total)
           POLLUTANTS total)
    lanes total !! p =
  if decide (p ∈ POLLUTANTS)
  then (fun q => q + lane_emission p lanes) <$> total !! p
  else total !! p.
Proof.
  revert total. induction lanes as [|l lanes IH]; intros total.
  - simpl. destruct (decide _); [|reflexivity].
    destruct (total !! p); simpl; [f_equal; lra | reflexivity].
  - cbn [fold_left]. rewrite IH. rewrite filter_cons.
    destruct (decide (Tanga.length l <= 0)) as [Hle|Hgt].
    + rewrite (decide_False (P := 0 < Tanga.length l)) by lra. reflexivity.
    + rewrite (decide_True (P := 0 < Tanga.length l)) by lra.
      rewrite (fold_alter_lookup
                 (fun pollutant q =>
                    q + Tanga.Q_seg (Tanga.normed l pollutant)
                          (Tanga.length l) * INR Tanga.N_seg))
        by exact POLLUTANTS_NoDup.
      destruct (decide (p ∈ POLLUTANTS)); [|reflexivity].
      destruct (total !! p) as [q|]; [|reflexivity]. simpl. f_equal.
      unfold Tanga.Q_seg, Tanga.N_seg. simpl INR. field.
Qed.

(** X27: the /compute endpoint of tanga.py accumulates, for each of the
    four pollutants and no other key, the emission of the lanes with a
    positive length, the sum of normed * 1e-6 / 3600 * length: the
    division into N_seg segments cancels out, and a lane whose length is
    missing, zero or negative contributes nothing. *)
Theorem tanga_total_emissions (lanes : list Tanga.lane) (p : string) :
  Tanga.total_emissions lanes !! p =
  if decide (p ∈ POLLUTANTS) then Some (lane_emission p lanes) else None.
Proof.
  unfold Tanga.total_emissions. rewrite tanga_fold.
  destruct (decide (p ∈ POLLUTANTS)) as [Hin|Hin].
  - unfold POLLUTANTS in Hin.
    repeat (apply elem_of_cons in Hin as [->|Hin]);
      [..|by apply elem_of_nil in Hin];
      vm_compute list_to_map; simpl; f_equal; lra.
  - apply not_elem_of_list_to_map_1. exact Hin.
Qed.

(** X28: for positive wind speed and cloud depth the endpoint answers a
    distance of 0 or less with the concentration 0, not with an error;
    for a positive distance its concentration is 10 Q / (U H 0.1 x)
    scaled by 1e6, a thousandth of what v2_better_disper.py reports in
    ug/m3 for the same emission rate and distance; and the answer has an
    entry for each of the four pollutants and no other. *)
Theorem tanga_screening (U_wc H_wc x : R) (lanes : list Tanga.lane)
    (p : string) (HU : 0 < U_wc) (HH : 0 < H_wc) :
  (is_Some (Tanga.compute_screening U_wc H_wc x lanes !! p) <->
   p ∈ POLLUTANTS) /\
  (forall res,
     Tanga.compute_screening U_wc H_wc x lanes !! p = Some res ->
     Tanga.total_emissions lanes !! p = Some (Tanga.Q_kg_per_s res) /\
     (x <= 0 -> Tanga.C_wc_ug_per_m3 res = 0) /\
     (0 < x ->
      Tanga.C_wc_ug_per_m3 res =
        10 * Tanga.Q_kg_per_s res / (U_wc * H_wc * (0.1 * x)) * 1e6 /\
      Tanga.C_wc_ug_per_m3 res * 1000 =
        V2.C_i_ug U_wc H_wc (Tanga.Q_kg_per_s res) x)).
Proof.
  unfold Tanga.compute_screening. split.
  - rewrite lookup_fmap, fmap_is_Some.
    pose proof (tanga_fold lanes
                  (list_to_map (map (fun pollutant => (pollutant, 0.0))
                                    POLLUTANTS)) p) as Hfold.
    fold (Tanga.total_emissions lanes) in Hfold.
    rewrite Hfold. destruct (decide (p ∈ POLLUTANTS)) as [Hin|Hin].
    + split; [done|]. intros _. rewrite fmap_is_Some.
      apply elem_of_dom. rewrite dom_list_to_map_L.
      apply elem_of_list_to_set. exact Hin.
    + split; [|done]. intros Hsome. exfalso. apply Hin.
      apply elem_of_dom in Hsome. rewrite dom_list_to_map_L in Hsome.
      apply elem_of_list_to_set in Hsome. exact Hsome.
  - intros res. rewrite lookup_fmap.
    destruct (Tanga.total_emissions lanes !! p) as [Q|]; [|discriminate].
    simpl. intros [= <-]. simpl. split; [reflexivity|].
    unfold Tanga.C_wc, Tanga.C_wc_kg, Tanga.W_wc. split.
    + intros Hx. rewrite decide_False; [lra|].
      assert (0 < U_wc * H_wc) by (apply Rmult_lt_0_compat; lra). nra.
    + intros Hx. rewrite decide_True.
      * split; [lra|]. unfold V2.C_i_ug, V2.C_i.
        replace 10.0 with 10 by lra. replace 0.1 with (1 / 10) by lra.
        replace 1e6 with 1000000 by lra.
        replace 1e9 with 1000000000 by lra.
        field. lra.
      * apply Rmult_lt_0_compat; [apply Rmult_lt_0_compat; lra | lra].
Qed.

Lemma tanga_screening_witness :
  is_Some (Tanga.compute_screening 1 50 100 [] !! "CO") <-> "CO" ∈ POLLUTANTS.
Proof.
  exact (proj1 (tanga_screening 1 50 100 [] "CO" ltac:(lra) ltac:(lra))).
Defined.

End TangaFacts.
